(** * Happy Places: the placement ledger and its projections

    A shallow embedding of [src/Happy-Places.py] (class [HappyPlaces]): the
    four SQLite tables, the three writers ([register_item],
    [record_placement], [register_zone]) and the read-side queries
    ([item_status], [placement_history], [recent_neighbors], [items_in_zone],
    [distribution_patterns], [items_needing_attention]).

    Conventions of the embedding.
    - A table is the list of its rows in rowid order.  The surrogate
      AUTOINCREMENT keys and the [created_at] columns are never read by any
      query of the class and are not carried.
    - TEXT values are [string]s; SQLite compares them bytewise, which is
      [String.compare].
    - INTEGER columns are [Z].  A REAL column holds a finite double, carried
      by its exact value in [Q].  Where the code divides two values it read
      or computed, makes a float of an integer, or calls [round(x, 1)], the
      result is the nearest double, as Python computes it
      ([nearest_double]).  The age in years, differences and products are
      carried exactly: their rounding error, about one part in 10^16, and
      the overflow to an infinity are outside the model.
    - [metadata] holds the text produced by [json.dumps].
    - The clock and the date parser of [datetime] enter as one function,
      [age_days], which tells for a purchase date whether the age can be
      computed and, when it cannot, which of the two steps fails. *)

From Stdlib Require Import ZArith QArith Qround Qabs Qpower Lqa.
From Stdlib Require Import String Ascii List Sorted Lia.
From stdpp Require Import base decidable option list sorting gmap strings.

Local Open Scope string_scope.
Local Open Scope Z_scope.

(** ** Text comparison *)

Definition ts_le (a b : string) : Prop := String.leb a b = true.

#[global] Instance ts_le_dec (a b : string) : Decision (ts_le a b).
Proof. unfold ts_le. apply bool_eq_dec. Defined.

(** ** The store *)

(** Row of table [items]. *)
Record item_row := {
  item_id : string;
  label : string;
  category : string;
  purchase_date : option string;
  expected_lifespan_years : option Q;
  current_quantity : option Z;
  refill_threshold : option Z;
  usage_rate_per_day : option Q;
  metadata : string
}.

(** Row of table [placements]. *)
Record placement_row := {
  p_item_id : string;
  p_zone : string;
  p_distribution_type : string;
  p_routine : option string;
  p_motive : option string;
  p_timestamp : string;
  p_metadata : string
}.

(** Row of table [co_presence]: (item_a, item_b, zone, timestamp). *)
Record co_row := {
  item_a : string;
  item_b : string;
  c_zone : string;
  c_timestamp : string
}.

(** Row of table [zones]. *)
Record zone_row := {
  zone_id : string;
  zone_name : string;
  description : string
}.

Record Store := {
  items : list item_row;
  placements : list placement_row;
  co_presence : list co_row;
  zones : list zone_row
}.

(** The database right after [_init_db] on a fresh file. *)
Definition empty_store : Store :=
  {| items := []; placements := []; co_presence := []; zones := [] |}.

#[global] Instance placement_row_eq_dec : EqDecision placement_row.
Proof. solve_decision. Defined.

(** ** Errors, connections and transactions *)

Inductive error :=
  | IntegrityError      (* sqlite3.IntegrityError: CHECK constraint failed *)
  | ValueError          (* datetime.fromisoformat on a malformed string *)
  | TypeError           (* a naive datetime minus an offset-aware one *)
  | ZeroDivisionError.  (* float division by zero *)

Inductive result (A : Type) :=
  | Ok (a : A)
  | Raise (e : error).
Arguments Ok {A} a.
Arguments Raise {A} e.

#[global] Instance result_ret : MRet result := fun A a => Ok a.
#[global] Instance result_bind : MBind result :=
  fun A B k m => match m with
                 | Ok a => k a
                 | Raise e => Raise e
                 end.

(** Statements run on a connection: they thread the working copy of the
    database and may raise.  A raise keeps the working copy as it was when
    the exception left the statement. *)
Definition conn (A : Type) : Type := Store -> result A * Store.

Definition ret {A} (a : A) : conn A := fun s => (Ok a, s).

Definition bind {A B} (m : conn A) (k : A -> conn B) : conn B :=
  fun s => match m s with
           | (Ok a, s') => k a s'
           | (Raise e, s') => (Raise e, s')
           end.

Declare Scope conn_scope.
Delimit Scope conn_scope with conn.
Bind Scope conn_scope with conn.
Notation "m ;; k" := (bind m (fun _ => k))
  (at level 100, k at level 200, right associativity) : conn_scope.
Local Open Scope conn_scope.

(** [for x in xs: body x] *)
Fixpoint for_each {A} (xs : list A) (body : A -> conn unit) : conn unit :=
  match xs with
  | [] => ret tt
  | x :: xs' => body x ;; for_each xs' body
  end.

(** [conn.commit()] inside the block: the working copy is what the block's
    exit commits anyway. *)
Definition commit : conn unit := ret tt.

(** [with self._connect() as conn: body]: the connection's context manager
    commits when the block ends normally and rolls back to the state at
    entry when an exception leaves it. *)
Definition with_connection {A} (body : conn A) : conn A :=
  fun s => match body s with
           | (Ok a, s') => (Ok a, s')
           | (Raise e, _) => (Raise e, s)
           end.

(** ** Schema constraints *)

Definition categories : list string :=
  ["good_stuff"; "refillable"; "disposable"].

Definition distribution_types : list string :=
  ["stack"; "spread"; "lose"; "discard"; "placed"].

(** [CHECK(category IN ('good_stuff', 'refillable', 'disposable'))] *)
Definition check_category (c : string) : bool :=
  existsb (String.eqb c) categories.

(** [CHECK(distribution_type IN ('stack', 'spread', 'lose', 'discard', 'placed'))] *)
Definition check_distribution_type (d : string) : bool :=
  existsb (String.eqb d) distribution_types.

(** ** Statements *)

(** [INSERT OR REPLACE INTO items ...]: a CHECK violation aborts the
    statement; otherwise the row holding the same primary key, if any, is
    deleted and the new row is appended. *)
Definition insert_or_replace_item (r : item_row) : conn unit :=
  fun s =>
    if check_category (category r) then
      (Ok tt,
       {| items := filter (fun r' => item_id r' ≠ item_id r) (items s) ++ [r];
          placements := placements s;
          co_presence := co_presence s;
          zones := zones s |})
    else (Raise IntegrityError, s).

(** [INSERT INTO placements ...] *)
Definition insert_placement (p : placement_row) : conn unit :=
  fun s =>
    if check_distribution_type (p_distribution_type p) then
      (Ok tt,
       {| items := items s;
          placements := placements s ++ [p];
          co_presence := co_presence s;
          zones := zones s |})
    else (Raise IntegrityError, s).

(** [INSERT INTO co_presence (item_a, item_b, zone, timestamp) ...]; foreign
    keys are declared but SQLite does not enforce them unless the pragma is
    switched on, which the class never does. *)
Definition insert_co_presence (c : co_row) : conn unit :=
  fun s =>
    (Ok tt,
     {| items := items s;
        placements := placements s;
        co_presence := co_presence s ++ [c];
        zones := zones s |}).

(** [INSERT OR REPLACE INTO zones ...] *)
Definition insert_or_replace_zone (z : zone_row) : conn unit :=
  fun s =>
    (Ok tt,
     {| items := items s;
        placements := placements s;
        co_presence := co_presence s;
        zones := filter (fun z' => zone_id z' ≠ zone_id z) (zones s) ++ [z] |}).

(** ** Writers *)

(** [json.dumps(metadata or {})], the argument given as its JSON text. *)
Definition dumps_or_empty (m : option string) : string :=
  match m with
  | Some j => j
  | None => "{}"
  end.

Definition register_item (id lbl cat : string)
    (purchase : option string) (lifespan : option Q)
    (quantity threshold : option Z) (usage : option Q)
    (meta : option string) : conn unit :=
  with_connection
    (insert_or_replace_item
       {| item_id := id; label := lbl; category := cat;
          purchase_date := purchase; expected_lifespan_years := lifespan;
          current_quantity := quantity; refill_threshold := threshold;
          usage_rate_per_day := usage; metadata := dumps_or_empty meta |} ;;
     commit).

(** [utcnow] is [datetime.datetime.utcnow().isoformat()] at the call. *)
Definition record_placement (utcnow : string)
    (id zone dtype : string) (routine motive : option string)
    (seen_with : option (list string)) (timestamp : option string)
    (meta : option string) : conn unit :=
  let timestamp := match timestamp with Some t => t | None => utcnow end in
  with_connection
    (insert_placement
       {| p_item_id := id; p_zone := zone; p_distribution_type := dtype;
          p_routine := routine; p_motive := motive;
          p_timestamp := timestamp; p_metadata := dumps_or_empty meta |} ;;
     (match seen_with with
      | Some ((_ :: _) as others) =>
          for_each others (fun other_id =>
            insert_co_presence
              {| item_a := id; item_b := other_id;
                 c_zone := zone; c_timestamp := timestamp |} ;;
            insert_co_presence
              {| item_a := other_id; item_b := id;
                 c_zone := zone; c_timestamp := timestamp |})
      | _ => ret tt
      end) ;;
     commit).

Definition register_zone (id name descr : string) : conn unit :=
  with_connection (insert_or_replace_zone
                     {| zone_id := id; zone_name := name; description := descr |} ;;
                   commit).

(** ** Query building blocks *)

(** [LIMIT n]: SQLite reads a negative bound as no bound at all. *)
Definition sql_limit {A} (n : Z) (rows : list A) : list A :=
  if n <? 0 then rows else take (Z.to_nat n) rows.

(** [ORDER BY key DESC] on a TEXT key. *)
Definition order_by_desc {A} (key : A -> string) (rows : list A) : list A :=
  merge_sort (fun x y => ts_le (key y) (key x)) rows.

(** [SELECT MAX(col)]: [None] is SQL NULL, the maximum of no rows. *)
Definition sql_max (col : list string) : option string :=
  foldr (fun t acc =>
           match acc with
           | None => Some t
           | Some m => if String.leb m t then Some t else Some m
           end) None col.

(** [SELECT key, COUNT( * ) ... GROUP BY key]: one row per distinct key. *)
Definition group_count {A K} `{EqDecision K} (key : A -> K) (rows : list A)
    : list (K * nat) :=
  (fun k => (k, length (filter (fun x => key x = k) rows)))
    <$> remove_dups (key <$> rows).

(** [{r[0]: r[1] for r in rows}]: a later row overwrites an earlier one. *)
Definition dict_of_rows (rows : list (string * nat)) : gmap string nat :=
  foldl (fun d r => <[r.1 := r.2]> d) ∅ rows.

(** [sum(d.values())] *)
Definition dict_sum (d : gmap string nat) : nat :=
  sum_list ((map_to_list d).*2).

(** ** Python arithmetic: floats by their exact value *)

Local Open Scope Q_scope.

Definition Qgtb (a b : Q) : bool :=
  match a ?= b with Gt => true | _ => false end.

Definition Qltb (a b : Q) : bool :=
  match a ?= b with Lt => true | _ => false end.

(** Nearest integer, ties to even. *)
Definition round_half_even (x : Q) : Z :=
  let f := Qfloor x in
  match Qcompare (x - inject_Z f) (1 # 2) with
  | Lt => f
  | Gt => (f + 1)%Z
  | Eq => if Z.even f then f else (f + 1)%Z
  end.

(** The exponent [e] with [2 ^ e <= |x| < 2 ^ (e + 1)], for [x] other than
    zero. *)
Definition floor_log2 (x : Q) : Z :=
  let n := Z.abs (Qnum x) in
  let d := Z.pos (Qden x) in
  let e := (Z.log2 n - Z.log2 d)%Z in
  if (d * 2 ^ Z.max 0 e <=? n * 2 ^ Z.max 0 (- e))%Z then e else (e - 1)%Z.

(** The double nearest to [x], a tie going to the even mantissa: IEEE 754
    binary64, with a mantissa of 53 bits and a least exponent of -1074, so
    that small values round on the grid of the subnormal numbers.  [x] is
    within the range of the finite doubles. *)
Definition nearest_double (x : Q) : Q :=
  if Qeq_bool x 0 then 0
  else let p := Z.max (floor_log2 x - 52) (-1074) in
       inject_Z (round_half_even (x / 2 ^ p)) * 2 ^ p.

(** The float that [int / float] makes of its left operand. *)
Definition float_of_int (n : Z) : Q := nearest_double (inject_Z n).

(** [a / b] on floats. *)
Definition truediv (a b : Q) : result Q :=
  if Qeq_bool b 0 then Raise ZeroDivisionError
  else Ok (nearest_double (a / b)).

(** [max(0, x)]: the first argument wins unless the second is greater. *)
Definition max0 (x : Q) : Q := if Qgtb x 0 then x else 0.

(** [round(x, 1)] on a float: the exact value of [x] is rounded to one
    decimal, a tie going to the even digit, and the result is the double
    nearest to that decimal. *)
Definition round1 (x : Q) : Q :=
  nearest_double (inject_Z (round_half_even (x * 10)) / 10).

(** [x or 0] on an INTEGER column. *)
Definition or_zero_Z (x : option Z) : Z :=
  match x with
  | Some v => if (v =? 0)%Z then 0%Z else v
  | None => 0%Z
  end.

(** [x or 0] on a REAL column. *)
Definition or_zero_Q (x : option Q) : Q :=
  match x with
  | Some v => if Qeq_bool v 0 then 0 else v
  | None => 0
  end.

(** Truth value of a TEXT column: NULL and the empty string are false. *)
Definition truthy_text (x : option string) : bool :=
  match x with
  | Some s => negb (String.eqb s "")
  | None => false
  end.

(** Truth value of a REAL column: NULL and zero are false. *)
Definition truthy_real (x : option Q) : bool :=
  match x with
  | Some v => negb (Qeq_bool v 0)
  | None => false
  end.

(** ** Query results *)

Record lifecycle_info := {
  lc_purchase_date : string;
  lc_age_years : Q;
  lc_expected_lifespan_years : Q;
  lc_remaining_years : Q;
  lc_health_percent : Q
}.

Record refill_info := {
  rs_current_quantity : Z;
  rs_refill_threshold : Z;
  needs_refill : bool;
  days_remaining : option Q
}.

Record placement_view := {
  pv_zone : string;
  pv_distribution_type : string;
  pv_routine : option string;
  pv_motive : option string;
  pv_timestamp : string
}.

(** The dict returned by [item_status]; an absent key is [None]. *)
Record status := {
  st_item_id : string;
  st_label : string;
  st_category : string;
  st_metadata : string;
  lifecycle : option lifecycle_info;
  refill_status : option refill_info;
  current_placement : option placement_view
}.

Record history_entry := {
  h_zone : string;
  h_distribution_type : string;
  h_routine : option string;
  h_motive : option string;
  h_timestamp : string;
  h_metadata : string
}.

Record neighbor := {
  n_item_id : string;
  n_label : string;
  n_zone : string;
  n_timestamp : string
}.

Record zone_item := {
  z_item_id : string;
  z_label : string;
  z_category : string;
  z_distribution_type : string;
  z_last_updated : string
}.

Record zone_count := {
  zc_zone : string;
  zc_distribution_type : string;
  zc_count : nat
}.

Record patterns := {
  overall_counts : gmap string nat;
  by_zone : list zone_count
}.

Record refill_entry := {
  rn_item_id : string;
  rn_label : string;
  rn_current_quantity : option Z;
  rn_threshold : option Z
}.

Record replacement_entry := {
  rp_item_id : string;
  rp_label : string;
  rp_remaining_years : Q;
  rp_health_percent : Q
}.

Record attention := {
  refill_needed : list refill_entry;
  replacement_soon : list replacement_entry
}.

(** ** Queries that do not read the clock *)

(** [SELECT ... FROM items WHERE item_id = ?] then [fetchone()] *)
Definition find_item (s : Store) (id : string) : option item_row :=
  head (filter (fun r => item_id r = id) (items s)).

(** [SELECT ... FROM placements WHERE item_id = ? ORDER BY timestamp DESC LIMIT n] *)
Definition select_placements (s : Store) (id : string) (n : Z)
    : list placement_row :=
  sql_limit n (order_by_desc p_timestamp
                 (filter (fun p => p_item_id p = id) (placements s))).

(** The dict built from one fetched row of [placement_history]. *)
Definition history_entry_of (r : placement_row) : history_entry :=
  {| h_zone := p_zone r;
     h_distribution_type := p_distribution_type r;
     h_routine := p_routine r;
     h_motive := p_motive r;
     h_timestamp := p_timestamp r;
     h_metadata := p_metadata r |}.

Definition placement_history (s : Store) (id : string) (limit : Z)
    : list history_entry :=
  history_entry_of <$> select_placements s id limit.

(** The join of [recent_neighbors], before DISTINCT: the selected columns
    (c.item_b, i.label, c.zone, c.timestamp). *)
Definition neighbor_rows (s : Store) (id : string)
    : list (string * string * string * string) :=
  c ← co_presence s;
  i ← items s;
  if decide (item_b c = item_id i ∧ item_a c = id)
  then [(item_b c, label i, c_zone c, c_timestamp c)]
  else [].

(** The dict built from one fetched row of [recent_neighbors]. *)
Definition neighbor_of (r : string * string * string * string) : neighbor :=
  {| n_item_id := r.1.1.1; n_label := r.1.1.2;
     n_zone := r.1.2; n_timestamp := r.2 |}.

Definition recent_neighbors (s : Store) (id : string) (limit : Z)
    : list neighbor :=
  neighbor_of
    <$> sql_limit limit
          (order_by_desc (fun r => r.2) (remove_dups (neighbor_rows s id))).

(** [SELECT MAX(timestamp) FROM placements WHERE item_id = ?] *)
Definition max_timestamp (s : Store) (id : string) : option string :=
  sql_max (p_timestamp <$> filter (fun p => p_item_id p = id) (placements s)).

(** The join of [items_in_zone], before DISTINCT: (i.item_id, i.label,
    i.category, p.distribution_type, p.timestamp). *)
Definition zone_rows (s : Store) (zone : string)
    : list (string * string * string * string * string) :=
  i ← items s;
  p ← placements s;
  if decide (item_id i = p_item_id p ∧ p_zone p = zone
             ∧ Some (p_timestamp p) = max_timestamp s (item_id i))
  then [(item_id i, label i, category i, p_distribution_type p, p_timestamp p)]
  else [].

(** The dict built from one fetched row of [items_in_zone]. *)
Definition zone_item_of (r : string * string * string * string * string)
    : zone_item :=
  {| z_item_id := r.1.1.1.1; z_label := r.1.1.1.2;
     z_category := r.1.1.2; z_distribution_type := r.1.2;
     z_last_updated := r.2 |}.

Definition items_in_zone (s : Store) (zone : string) : list zone_item :=
  zone_item_of <$> remove_dups (zone_rows s zone).

Definition distribution_patterns (s : Store) : patterns :=
  let counts := group_count p_distribution_type (placements s) in
  let zone_counts :=
    group_count (fun p => (p_zone p, p_distribution_type p)) (placements s) in
  {| overall_counts := dict_of_rows counts;
     by_zone := (fun r => {| zc_zone := r.1.1;
                             zc_distribution_type := r.1.2;
                             zc_count := r.2 |}) <$> zone_counts |}.

(** ** Queries that read the clock *)

(** What [(datetime.datetime.now() - datetime.datetime.fromisoformat(d)).days]
    does for a string [d]. *)
Inductive age_result :=
  | Days (n : Z)   (* [d] parses to a naive datetime, [n] days before now *)
  | Malformed      (* [fromisoformat] rejects [d] with a ValueError *)
  | OffsetAware.   (* [d] parses with a UTC offset: the naive [now()] minus
                      an aware datetime raises a TypeError *)

Section Clock.

Variable age_days : string -> age_result.

(** [purchase = datetime.datetime.fromisoformat(d)] and then
    [(datetime.datetime.now() - purchase).days / 365.25] *)
Definition age_years (purchase : string) : result Q :=
  match age_days purchase with
  | Days d => Ok (inject_Z d / 365.25)
  | Malformed => Raise ValueError
  | OffsetAware => Raise TypeError
  end.

(** [item[1] == "good_stuff" and item[2] and item[3]], with the two
    columns it found set. *)
Definition good_stuff_dates (item : item_row) : option (string * Q) :=
  match purchase_date item, expected_lifespan_years item with
  | Some purchase, Some lifespan =>
      if String.eqb (category item) "good_stuff"
         && truthy_text (Some purchase) && truthy_real (Some lifespan)
      then Some (purchase, lifespan)
      else None
  | _, _ => None
  end.

Definition lifecycle_of (purchase : string) (lifespan_years : Q)
    : result lifecycle_info :=
  age ← age_years purchase;
  let remaining_years := max0 (lifespan_years - age) in
  ratio ← truediv remaining_years lifespan_years;
  Ok {| lc_purchase_date := purchase;
        lc_age_years := round1 age;
        lc_expected_lifespan_years := lifespan_years;
        lc_remaining_years := round1 remaining_years;
        lc_health_percent := round1 (ratio * 100) |}.

Definition refill_status_of (item : item_row) : result refill_info :=
  let quantity := or_zero_Z (current_quantity item) in
  let threshold := or_zero_Z (refill_threshold item) in
  let usage_rate := or_zero_Q (usage_rate_per_day item) in
  days ← (if Qgtb usage_rate 0
          then d ← truediv (float_of_int quantity) usage_rate; Ok (Some d)
          else Ok None);
  Ok {| rs_current_quantity := quantity;
        rs_refill_threshold := threshold;
        needs_refill := (quantity <=? threshold)%Z;
        days_remaining :=
          match days with
          | Some d => if Qeq_bool d 0 then None else Some (round1 d)
          | None => None
          end |}.

Definition item_status (s : Store) (id : string) : result (option status) :=
  match find_item s id with
  | None => Ok None
  | Some item =>
      let placement := head (select_placements s id 1) in
      info ← match good_stuff_dates item with
             | Some (purchase, lifespan_years) =>
                 lc ← lifecycle_of purchase lifespan_years;
                 Ok (Some lc, None)
             | None =>
                 if String.eqb (category item) "refillable"
                 then rs ← refill_status_of item; Ok (None, Some rs)
                 else Ok (None, None)
             end;
      Ok (Some {| st_item_id := id;
                  st_label := label item;
                  st_category := category item;
                  st_metadata := metadata item;
                  lifecycle := info.1;
                  refill_status := info.2;
                  current_placement :=
                    (fun p => {| pv_zone := p_zone p;
                                 pv_distribution_type := p_distribution_type p;
                                 pv_routine := p_routine p;
                                 pv_motive := p_motive p;
                                 pv_timestamp := p_timestamp p |})
                      <$> placement |})
  end.

(** [a <= b] in a WHERE clause: NULL on either side filters the row out. *)
Definition sql_le (a b : option Z) : bool :=
  match a, b with
  | Some x, Some y => (x <=? y)%Z
  | _, _ => false
  end.

(** [SELECT item_id, label, current_quantity, refill_threshold FROM items
    WHERE category = 'refillable' AND current_quantity <= refill_threshold] *)
Definition select_refillables (s : Store) : list refill_entry :=
  (fun r => {| rn_item_id := item_id r; rn_label := label r;
               rn_current_quantity := current_quantity r;
               rn_threshold := refill_threshold r |})
    <$> filter (fun r => category r = "refillable"
                         ∧ sql_le (current_quantity r) (refill_threshold r) = true)
               (items s).

(** [SELECT item_id, label, purchase_date, expected_lifespan_years FROM items
    WHERE category = 'good_stuff' AND purchase_date IS NOT NULL
    AND expected_lifespan_years IS NOT NULL] *)
Definition select_aging (s : Store) : list (string * string * string * Q) :=
  omap (fun r =>
          match purchase_date r, expected_lifespan_years r with
          | Some purchase, Some lifespan =>
              if String.eqb (category r) "good_stuff"
              then Some (item_id r, label r, purchase, lifespan)
              else None
          | _, _ => None
          end) (items s).

(** The loop [for item in aging], appending to [attention["replacement_soon"]]. *)
Fixpoint aging_loop (aging : list (string * string * string * Q))
    (acc : list replacement_entry) : result (list replacement_entry) :=
  match aging with
  | [] => Ok acc
  | (id, lbl, purchase, lifespan_years) :: rest =>
      age ← age_years purchase;
      let remaining_years := lifespan_years - age in
      if Qltb remaining_years (lifespan_years * 0.2) && Qgtb remaining_years 0
      then
        ratio ← truediv remaining_years lifespan_years;
        aging_loop rest
          (acc ++ [{| rp_item_id := id; rp_label := lbl;
                      rp_remaining_years := round1 remaining_years;
                      rp_health_percent := round1 (ratio * 100) |}])
      else aging_loop rest acc
  end.

Definition items_needing_attention (s : Store) : result attention :=
  soon ← aging_loop (select_aging s) [];
  Ok {| refill_needed := select_refillables s; replacement_soon := soon |}.

End Clock.

(** ** Zones, listings, routines and the export *)

(** [list_zones]: [SELECT zone_id, zone_name, description FROM zones], one
    dict per row. *)
Definition list_zones (s : Store) : list zone_row :=
  (fun r => {| zone_id := zone_id r; zone_name := zone_name r;
               description := description r |}) <$> zones s.

(** [ORDER BY key] on a TEXT key, ascending. *)
Definition order_by_asc {A} (key : A -> string) (rows : list A) : list A :=
  merge_sort (fun x y => ts_le (key x) (key y)) rows.

Record item_summary := {
  a_item_id : string;
  a_label : string;
  a_category : string
}.

(** The dict built from one fetched row of [all_items]. *)
Definition item_summary_of (r : item_row) : item_summary :=
  {| a_item_id := item_id r; a_label := label r; a_category := category r |}.

(** [all_items]: [SELECT item_id, label, category FROM items ORDER BY label] *)
Definition all_items (s : Store) : list item_summary :=
  item_summary_of <$> order_by_asc label (items s).

(** [GROUP_CONCAT(col)] with the default separator; [None] is SQL NULL, the
    concatenation of no value. *)
Fixpoint join_comma (l : list string) : string :=
  match l with
  | [] => ""
  | [x] => x
  | x :: rest => x ++ "," ++ join_comma rest
  end.

Definition group_concat (l : list string) : option string :=
  match l with
  | [] => None
  | _ => Some (join_comma l)
  end.

(** [s.split(',')] *)
Fixpoint split_comma (s : string) : list string :=
  match s with
  | EmptyString => [""]
  | String a rest =>
      if Ascii.eqb a ","%char then "" :: split_comma rest
      else match split_comma rest with
           | h :: t => String a h :: t
           | [] => [String a ""]
           end
  end.

Record routine_insight := {
  ri_routine : string;
  ri_motive : option string;
  ri_frequency : nat;
  ri_zones : list string
}.

(** The placements kept by [WHERE routine IS NOT NULL], each with its
    routine. *)
Definition routine_rows (s : Store) : list (string * placement_row) :=
  omap (fun p => match p_routine p with
                 | Some r => Some (r, p)
                 | None => None
                 end) (placements s).

(** The key of [GROUP BY routine, motive]; a NULL motive is a group of its
    own. *)
Definition routine_key (rp : string * placement_row) : string * option string :=
  (rp.1, p_motive rp.2).

(** The rows of the query of [routine_insights] before ORDER BY:
    (routine, motive, COUNT( * ), GROUP_CONCAT(DISTINCT zone)). *)
Definition routine_groups (s : Store)
    : list (string * option string * nat * option string) :=
  (fun k =>
     let members := filter (fun rp => routine_key rp = k) (routine_rows s) in
     (k.1, k.2, length members,
      group_concat (remove_dups ((fun rp => p_zone rp.2) <$> members))))
    <$> remove_dups (routine_key <$> routine_rows s).

(** [ORDER BY frequency DESC] on the COUNT column. *)
Definition order_by_frequency_desc {A} (freq : A -> nat) (rows : list A)
    : list A :=
  @merge_sort A (fun x y => (freq y <= freq x)%nat)
    (fun x y => decide (freq y <= freq x)%nat) rows.

(** The dict built from one fetched row of [routine_insights]:
    [r[3].split(',') if r[3] else []]. *)
Definition routine_insight_of
    (r : string * option string * nat * option string) : routine_insight :=
  {| ri_routine := r.1.1.1; ri_motive := r.1.1.2; ri_frequency := r.1.2;
     ri_zones := match r.2 with
                 | Some z => if String.eqb z "" then [] else split_comma z
                 | None => []
                 end |}.

Definition routine_insights (s : Store) : list routine_insight :=
  routine_insight_of
    <$> order_by_frequency_desc (fun r => r.1.2) (routine_groups s).

(** The dict that [export_to_json] hands to [json.dump]. *)
Record export := {
  ex_exported_at : string;
  ex_items : list status;
  ex_zones : list zone_row;
  ex_patterns : patterns;
  ex_attention : attention
}.

(** The loop [for item in self.all_items()] of [export_to_json]: a status is
    appended when [item_status] returned one. *)
Fixpoint export_items (age_days : string -> age_result) (s : Store)
    (listed : list item_summary) (acc : list status) : result (list status) :=
  match listed with
  | [] => Ok acc
  | item :: rest =>
      st ← item_status age_days s (a_item_id item);
      match st with
      | Some st => export_items age_days s rest (acc ++ [st])
      | None => export_items age_days s rest acc
      end
  end.

(** [export_to_json] up to the write of the file; [utcnow] is
    [datetime.datetime.utcnow().isoformat()] at the call. *)
Definition export_data (age_days : string -> age_result) (utcnow : string)
    (s : Store) : result export :=
  let zs := list_zones s in
  let pats := distribution_patterns s in
  att ← items_needing_attention age_days s;
  sts ← export_items age_days s (all_items s) [];
  Ok {| ex_exported_at := utcnow; ex_items := sts; ex_zones := zs;
        ex_patterns := pats; ex_attention := att |}.

(** ** Vocabulary of the statements *)

(** The two directed rows written for one identity of [seen_with]. *)
Definition edge_pair (id zone ts other : string) : list co_row :=
  [ {| item_a := id; item_b := other; c_zone := zone; c_timestamp := ts |};
    {| item_a := other; item_b := id; c_zone := zone; c_timestamp := ts |} ].

Definition edge_pairs (id zone ts : string) (others : list string)
    : list co_row :=
  other ← others; edge_pair id zone ts other.

(** The store with rows appended to [placements] and to [co_presence]. *)
Definition appended (ps : list placement_row) (cs : list co_row) (s : Store)
    : Store :=
  {| items := items s;
     placements := placements s ++ ps;
     co_presence := co_presence s ++ cs;
     zones := zones s |}.

(** An identity is registered when table [items] holds a row for it. *)
Definition registered (s : Store) (id : string) : Prop :=
  ∃ i, i ∈ items s ∧ item_id i = id.

(** [a] is strictly before [b] in the order of TEXT values. *)
Definition ts_lt (a b : string) : Prop := String.compare a b = Lt.

(** The [days_remaining] entry of a status, when the call returned a status
    holding a [refill_status]. *)
Definition reported_days_remaining (r : result (option status))
    : option (option Q) :=
  match r with
  | Ok (Some st) => days_remaining <$> refill_status st
  | _ => None
  end.

(** Newest first: the ordering [ORDER BY key DESC] establishes. *)
Definition newest_first {A} (key : A → string) : relation A :=
  fun x y => ts_le (key y) (key x).

(** A small ledger reached through the writers: a refillable soap with an
    empty stock, a towel bought in 2020 and expected to last five years, and
    two placements of the towel, both seen with the soap and the second also
    with a mug that was never registered. *)
Definition demo_store : Store :=
  let s1 := (register_item "soap" "Hand soap" "refillable" None None
               (Some 0%Z) (Some 2%Z) (Some 1) None empty_store).2 in
  let s2 := (register_item "towel" "Bath towel" "good_stuff"
               (Some "2020-01-01") (Some 5) None None None None s1).2 in
  let s3 := (record_placement "2024-01-01T08:00:00" "towel" "bathroom" "placed"
               None None (Some ["soap"]) None None s2).2 in
  (record_placement "2024-01-02T08:00:00" "towel" "hall" "stack"
     None None (Some ["soap"; "mug"]) None None s3).2.

(** A clock for [demo_store]: 1644 days after any purchase date, that is
    about four and a half years. *)
Definition demo_clock : string → age_result := fun _ => Days 1644.

(** A ledger with one refillable item holding one unit, used up at three
    units a day. *)
Definition salt_store : Store :=
  (register_item "salt" "Table salt" "refillable" None None
     (Some 1%Z) (Some 0%Z) (Some 3) None empty_store).2.

(** The primary key of [items]: no two rows share an identity. *)
Definition keys_unique (s : Store) : Prop := NoDup (item_id <$> items s).


(** Every co-presence row has its mirror row in the table. *)
Definition co_symmetric (s : Store) : Prop :=
  ∀ c, c ∈ co_presence s →
       {| item_a := item_b c; item_b := item_a c;
          c_zone := c_zone c; c_timestamp := c_timestamp c |} ∈ co_presence s.

(** The primary key of [zones]. *)
Definition zone_keys_unique (s : Store) : Prop :=
  NoDup (zone_id <$> zones s).

(** The [current_placement] dict of [item_status] for a placement row. *)
Definition placement_view_of (p : placement_row) : placement_view :=
  {| pv_zone := p_zone p; pv_distribution_type := p_distribution_type p;
     pv_routine := p_routine p; pv_motive := p_motive p;
     pv_timestamp := p_timestamp p |}.

(** The row that [register_item] writes. *)
Definition item_row_of (id lbl cat : string)
    (purchase : option string) (lifespan : option Q)
    (quantity threshold : option Z) (usage : option Q)
    (meta : option string) : item_row :=
  {| item_id := id; label := lbl; category := cat;
     purchase_date := purchase; expected_lifespan_years := lifespan;
     current_quantity := quantity; refill_threshold := threshold;
     usage_rate_per_day := usage; metadata := dumps_or_empty meta |}.

(** The row that [record_placement] appends to [placements]. *)
Definition placement_row_of (utcnow id zone dtype : string)
    (routine motive : option string) (timestamp meta : option string)
    : placement_row :=
  {| p_item_id := id; p_zone := zone; p_distribution_type := dtype;
     p_routine := routine; p_motive := motive;
     p_timestamp := default utcnow timestamp;
     p_metadata := dumps_or_empty meta |}.

(** The dict that [item_status] returns for an item row, given the optional
    entries it computed and the placement row it fetched. *)
Definition status_with (id : string) (item : item_row)
    (lc : option lifecycle_info) (rs : option refill_info)
    (placement : option placement_row) : status :=
  {| st_item_id := id; st_label := label item; st_category := category item;
     st_metadata := metadata item; lifecycle := lc; refill_status := rs;
     current_placement := placement_view_of <$> placement |}.

(** The exception that ends a failed age computation. *)
Definition age_error (a : age_result) : option error :=
  match a with
  | Days _ => None
  | Malformed => Some ValueError
  | OffsetAware => Some TypeError
  end.

(** The exact value of a finite double. *)
Definition is_double (x : Q) : Prop :=
  (nearest_double x == x)%Q ∧ (Qabs x < 2 ^ 1024)%Q.

(** The value of an INTEGER column: a signed integer of 64 bits. *)
Definition is_int64 (n : Z) : Prop := (- 2 ^ 63 ≤ n < 2 ^ 63)%Z.

(** A zone name that holds no comma. *)
Fixpoint comma_free (z : string) : bool :=
  match z with
  | EmptyString => true
  | String a rest => negb (Ascii.eqb a ","%char) && comma_free rest
  end.

(** * Properties *)

(** ** The order of TEXT values *)

Lemma ascii_compare_refl (c : ascii) : Ascii.compare c c = Eq.
Proof. unfold Ascii.compare. apply N.compare_refl. Qed.

Lemma string_compare_refl (s : string) : String.compare s s = Eq.
Proof.
  induction s as [|c s IH]; simpl; [reflexivity|].
  now rewrite ascii_compare_refl.
Qed.

Lemma ascii_compare_eq (a b : ascii) : Ascii.compare a b = Eq -> a = b.
Proof. apply Ascii.compare_eq_iff. Qed.

Lemma ascii_compare_lt_trans (a b c : ascii) :
  Ascii.compare a b = Lt -> Ascii.compare b c = Lt -> Ascii.compare a c = Lt.
Proof.
  unfold Ascii.compare. rewrite !N.compare_lt_iff. apply N.lt_trans.
Qed.

Lemma string_compare_lt_trans (a b c : string) :
  String.compare a b = Lt -> String.compare b c = Lt -> String.compare a c = Lt.
Proof.
  revert b c. induction a as [|x a IH]; intros [|y b] [|z c]; simpl;
    try congruence.
  destruct (Ascii.compare x y) eqn:Exy; try discriminate.
  - apply ascii_compare_eq in Exy; subst y.
    destruct (Ascii.compare x z) eqn:Exz; try congruence. apply IH.
  - destruct (Ascii.compare y z) eqn:Eyz; try discriminate.
    + apply ascii_compare_eq in Eyz; subst z. now rewrite Exy.
    + now rewrite (ascii_compare_lt_trans _ _ _ Exy Eyz).
Qed.

Lemma ts_le_refl (a : string) : ts_le a a.
Proof. unfold ts_le, String.leb. now rewrite string_compare_refl. Qed.

Lemma ts_le_cases (a b : string) :
  ts_le a b <-> a = b \/ String.compare a b = Lt.
Proof.
  unfold ts_le, String.leb. split.
  - destruct (String.compare a b) eqn:E; try discriminate; intros _.
    + left. now apply String.compare_eq_iff.
    + now right.
  - intros [-> | ->]; [now rewrite string_compare_refl | reflexivity].
Qed.

#[global] Instance ts_le_trans : Transitive ts_le.
Proof.
  intros a b c. rewrite !ts_le_cases.
  intros [-> | Hab] [-> | Hbc]; auto.
  right. eapply string_compare_lt_trans; eauto.
Qed.

#[global] Instance ts_le_total : Total ts_le.
Proof. intros a b. apply String.leb_total. Qed.

#[global] Instance ts_le_antisym : AntiSymm (=) ts_le.
Proof. intros a b. apply String.leb_antisym. Qed.

(** ** Schema checks *)

Lemma existsb_eqb_elem_of (x : string) (l : list string) :
  existsb (String.eqb x) l = true ↔ x ∈ l.
Proof.
  induction l as [|y l IH]; simpl.
  - split; [discriminate | intros H; inversion H].
  - rewrite orb_true_iff, IH, elem_of_cons, String.eqb_eq. reflexivity.
Qed.

Lemma check_category_false (c : string) :
  c ∉ categories → check_category c = false.
Proof.
  intros H. destruct (check_category c) eqn:E; [|reflexivity].
  apply existsb_eqb_elem_of in E. contradiction.
Qed.

Lemma check_distribution_type_false (d : string) :
  d ∉ distribution_types → check_distribution_type d = false.
Proof.
  intros H. destruct (check_distribution_type d) eqn:E; [|reflexivity].
  apply existsb_eqb_elem_of in E. contradiction.
Qed.

Lemma check_distribution_type_true (d : string) :
  d ∈ distribution_types → check_distribution_type d = true.
Proof. apply existsb_eqb_elem_of. Qed.

(** ** Writers *)

Lemma appended_nil (s : Store) : appended [] [] s = s.
Proof. destruct s; unfold appended; simpl. by rewrite !app_nil_r. Qed.

Lemma appended_appended ps1 cs1 ps2 cs2 (s : Store) :
  appended ps2 cs2 (appended ps1 cs1 s) = appended (ps1 ++ ps2) (cs1 ++ cs2) s.
Proof. unfold appended; simpl. by rewrite !app_assoc. Qed.

Lemma insert_co_presence_appended (c : co_row) (s : Store) :
  insert_co_presence c s = (Ok tt, appended [] [c] s).
Proof. unfold insert_co_presence, appended. by rewrite app_nil_r. Qed.

Lemma for_each_edges (id zone ts : string) (others : list string) (s : Store) :
  for_each others
    (fun other_id =>
       insert_co_presence
         {| item_a := id; item_b := other_id;
            c_zone := zone; c_timestamp := ts |} ;;
       insert_co_presence
         {| item_a := other_id; item_b := id;
            c_zone := zone; c_timestamp := ts |}) s
  = (Ok tt, appended [] (edge_pairs id zone ts others) s).
Proof.
  revert s. induction others as [|x others IH]; intros s.
  - simpl. unfold ret. by rewrite appended_nil.
  - cbn [for_each]. unfold bind at 1. unfold bind at 1.
    rewrite !insert_co_presence_appended, IH, !appended_appended.
    reflexivity.
Qed.

Lemma bind_Ok {A B} (m : conn A) (k : A → conn B) (s s' : Store) (a : A) :
  m s = (Ok a, s') → bind m k s = k a s'.
Proof. intros H. unfold bind. by rewrite H. Qed.

Lemma bind_Raise {A B} (m : conn A) (k : A → conn B) (s s' : Store) (e : error) :
  m s = (Raise e, s') → bind m k s = (Raise e, s').
Proof. intros H. unfold bind. by rewrite H. Qed.

Lemma with_connection_Ok {A} (body : conn A) (s s' : Store) (a : A) :
  body s = (Ok a, s') → with_connection body s = (Ok a, s').
Proof. intros H. unfold with_connection. by rewrite H. Qed.

Lemma with_connection_Raise {A} (body : conn A) (s s' : Store) (e : error) :
  body s = (Raise e, s') → with_connection body s = (Raise e, s).
Proof. intros H. unfold with_connection. by rewrite H. Qed.

Lemma insert_placement_valid (p : placement_row) (s : Store) :
  p_distribution_type p ∈ distribution_types →
  insert_placement p s = (Ok tt, appended [p] [] s).
Proof.
  intros Hd. apply check_distribution_type_true in Hd.
  unfold insert_placement, appended. by rewrite Hd, app_nil_r.
Qed.

Lemma record_placement_valid (utcnow id zone dtype : string)
    (routine motive : option string) (seen_with : option (list string))
    (timestamp meta : option string) (s : Store) :
  dtype ∈ distribution_types →
  record_placement utcnow id zone dtype routine motive seen_with timestamp meta s
  = (Ok tt,
     appended
       [ {| p_item_id := id; p_zone := zone; p_distribution_type := dtype;
            p_routine := routine; p_motive := motive;
            p_timestamp := default utcnow timestamp;
            p_metadata := dumps_or_empty meta |} ]
       (edge_pairs id zone (default utcnow timestamp) (default [] seen_with))
       s).
Proof.
  intros Hd. unfold record_placement.
  replace (match timestamp with Some t => t | None => utcnow end)
    with (default utcnow timestamp) by (by destruct timestamp).
  apply with_connection_Ok.
  erewrite bind_Ok by (by apply insert_placement_valid).
  erewrite bind_Ok; [reflexivity|].
  destruct seen_with as [[|x others]|]; cbn [default].
  - reflexivity.
  - rewrite for_each_edges, appended_appended. reflexivity.
  - reflexivity.
Qed.

Lemma record_placement_invalid (utcnow id zone dtype : string)
    (routine motive : option string) (seen_with : option (list string))
    (timestamp meta : option string) (s : Store) :
  dtype ∉ distribution_types →
  record_placement utcnow id zone dtype routine motive seen_with timestamp meta s
  = (Raise IntegrityError, s).
Proof.
  intros Hd. apply check_distribution_type_false in Hd.
  unfold record_placement, with_connection, bind, insert_placement.
  cbn [p_distribution_type]. by rewrite Hd.
Qed.

Lemma register_item_invalid (id lbl cat : string)
    (purchase : option string) (lifespan : option Q)
    (quantity threshold : option Z) (usage : option Q)
    (meta : option string) (s : Store) :
  cat ∉ categories →
  register_item id lbl cat purchase lifespan quantity threshold usage meta s
  = (Raise IntegrityError, s).
Proof.
  intros Hc. apply check_category_false in Hc.
  unfold register_item, with_connection, bind, insert_or_replace_item.
  cbn [category]. by rewrite Hc.
Qed.

Lemma register_item_co_presence (id lbl cat : string)
    (purchase : option string) (lifespan : option Q)
    (quantity threshold : option Z) (usage : option Q)
    (meta : option string) (s : Store) :
  co_presence
    (register_item id lbl cat purchase lifespan quantity threshold usage meta s).2
  = co_presence s.
Proof.
  unfold register_item, with_connection, bind, insert_or_replace_item, commit, ret.
  cbn [category]. by destruct (check_category cat).
Qed.

Lemma register_zone_co_presence (id name descr : string) (s : Store) :
  co_presence (register_zone id name descr s).2 = co_presence s.
Proof. reflexivity. Qed.

(** C3. [register_item] with a category outside the three enumerated values
    and [record_placement] with a distribution type outside the five
    enumerated values each raise, and the store after the call is the store
    before it: no row of [items], [placements] or [co_presence] is written. *)
Theorem invalid_enum_rejected_without_write :
  (∀ (id lbl cat : string) (purchase : option string) (lifespan : option Q)
     (quantity threshold : option Z) (usage : option Q) (meta : option string)
     (s : Store),
      cat ∉ categories →
      register_item id lbl cat purchase lifespan quantity threshold usage meta s
      = (Raise IntegrityError, s))
  ∧ (∀ (utcnow id zone dtype : string) (routine motive : option string)
       (seen_with : option (list string)) (timestamp meta : option string)
       (s : Store),
      dtype ∉ distribution_types →
      record_placement utcnow id zone dtype routine motive seen_with
        timestamp meta s
      = (Raise IntegrityError, s)).
Proof.
  split; intros.
  - by apply register_item_invalid.
  - by apply record_placement_invalid.
Qed.

Lemma invalid_enum_rejected_witness :
  register_item "lamp" "Desk lamp" "gadget" None None None None None None
    demo_store = (Raise IntegrityError, demo_store)
  ∧ record_placement "2024-01-03T08:00:00" "towel" "hall" "thrown" None None
      (Some ["soap"]) None None demo_store = (Raise IntegrityError, demo_store).
Proof.
  split.
  - apply (proj1 invalid_enum_rejected_without_write).
    apply (bool_decide_unpack _). vm_compute. exact I.
  - apply (proj2 invalid_enum_rejected_without_write).
    apply (bool_decide_unpack _). vm_compute. exact I.
Defined.

Lemma edge_pairs_length (id zone ts : string) (others : list string) :
  length (edge_pairs id zone ts others) = (2 * length others)%nat.
Proof.
  unfold edge_pairs. induction others as [|x others IH]; [reflexivity|].
  cbn [mbind list_bind]. rewrite length_app, IH. simpl. lia.
Qed.

(** C4. A valid [record_placement] for item [id] appends to [co_presence],
    for each identity X of [seen_with] in turn, exactly the two rows (id, X)
    and (X, id) carrying the placement's zone and timestamp, so two rows per
    listed identity; with [seen_with] omitted or empty the table is
    unchanged.  No other writer touches [co_presence]: a rejected
    [record_placement], [register_item] and [register_zone] leave it as it
    was. *)
Theorem record_placement_co_presence_pairs :
  (∀ (utcnow id zone dtype : string) (routine motive : option string)
     (seen_with : option (list string)) (timestamp meta : option string)
     (s : Store),
      dtype ∈ distribution_types →
      ∃ s', record_placement utcnow id zone dtype routine motive seen_with
              timestamp meta s = (Ok tt, s')
            ∧ co_presence s'
              = (co_presence s
                 ++ edge_pairs id zone (default utcnow timestamp)
                      (default [] seen_with))%list
            ∧ length (co_presence s')
              = (length (co_presence s) + 2 * length (default [] seen_with))%nat
            ∧ (seen_with = None ∨ seen_with = Some [] →
               co_presence s' = co_presence s))
  ∧ (∀ (utcnow id zone dtype : string) (routine motive : option string)
       (seen_with : option (list string)) (timestamp meta : option string)
       (s : Store),
      dtype ∉ distribution_types →
      co_presence (record_placement utcnow id zone dtype routine motive
                     seen_with timestamp meta s).2 = co_presence s)
  ∧ (∀ (id lbl cat : string) (purchase : option string) (lifespan : option Q)
       (quantity threshold : option Z) (usage : option Q)
       (meta : option string) (s : Store),
      co_presence (register_item id lbl cat purchase lifespan quantity
                     threshold usage meta s).2 = co_presence s)
  ∧ (∀ (id name descr : string) (s : Store),
      co_presence (register_zone id name descr s).2 = co_presence s).
Proof.
  split; [|split; [|split]].
  - intros utcnow id zone dtype routine motive seen_with timestamp meta s Hd.
    eexists. split; [by apply record_placement_valid|].
    cbn [appended co_presence]. split; [reflexivity|]. split.
    + by rewrite length_app, edge_pairs_length.
    + intros [-> | ->]; cbn; by rewrite app_nil_r.
  - intros. by rewrite record_placement_invalid.
  - intros. apply register_item_co_presence.
  - intros. apply register_zone_co_presence.
Qed.

Lemma record_placement_co_presence_pairs_witness :
  ∃ s', record_placement "2024-01-03T08:00:00" "towel" "hall" "spread" None None
          (Some ["soap"]) (Some "2024-01-02T20:00:00") None demo_store
        = (Ok tt, s')
      ∧ co_presence s'
        = (co_presence demo_store
           ++ [ {| item_a := "towel"; item_b := "soap"; c_zone := "hall";
                   c_timestamp := "2024-01-02T20:00:00" |};
                {| item_a := "soap"; item_b := "towel"; c_zone := "hall";
                   c_timestamp := "2024-01-02T20:00:00" |} ])%list.
Proof.
  destruct (proj1 record_placement_co_presence_pairs
              "2024-01-03T08:00:00" "towel" "hall" "spread" None None
              (Some ["soap"]) (Some "2024-01-02T20:00:00") None demo_store)
    as (s' & Hrun & Hco & _).
  - apply (bool_decide_unpack _). vm_compute. exact I.
  - exists s'. split; [exact Hrun | exact Hco].
Defined.

(** ** Ordering and limits *)

#[local] Instance newest_first_total {A} (key : A → string) :
  Total (newest_first key).
Proof.
  intros x y. unfold newest_first.
  destruct (ts_le_total (key y) (key x)); auto.
Qed.

#[local] Instance newest_first_trans {A} (key : A → string) :
  Transitive (newest_first key).
Proof.
  intros x y z Hxy Hyz. unfold newest_first in *. by transitivity (key y).
Qed.

Lemma order_by_desc_sorted {A} (key : A → string) (l : list A) :
  StronglySorted (newest_first key) (order_by_desc key l).
Proof. apply (StronglySorted_merge_sort (newest_first key)). Qed.

Lemma order_by_desc_perm {A} (key : A → string) (l : list A) :
  order_by_desc key l ≡ₚ l.
Proof. apply (merge_sort_Permutation (newest_first key)). Qed.

Lemma elem_of_order_by_desc {A} (key : A → string) (l : list A) (x : A) :
  x ∈ order_by_desc key l ↔ x ∈ l.
Proof. by rewrite order_by_desc_perm. Qed.

Lemma sql_limit_take {A} (n : Z) (l : list A) :
  ∃ k, sql_limit n l = take k l.
Proof.
  unfold sql_limit. destruct (n <? 0)%Z.
  - exists (length l). by rewrite take_ge.
  - by eexists.
Qed.

Lemma sql_limit_length {A} (n : Z) (l : list A) :
  (0 ≤ n)%Z → (Z.of_nat (length (sql_limit n l)) ≤ n)%Z.
Proof.
  intros Hn. unfold sql_limit.
  destruct (Z.ltb_spec n 0); [lia|]. rewrite length_take. lia.
Qed.

Lemma elem_of_sql_limit {A} (n : Z) (l : list A) (x : A) :
  x ∈ sql_limit n l → x ∈ l.
Proof.
  destruct (sql_limit_take n l) as [k ->]. intros Hx.
  rewrite <- (take_drop k l). apply elem_of_app. by left.
Qed.

Lemma sql_limit_sorted {A} (R : relation A) (n : Z) (l : list A) :
  StronglySorted R l → StronglySorted R (sql_limit n l).
Proof.
  destruct (sql_limit_take n l) as [k ->]. intros Hl.
  rewrite <- (take_drop k l) in Hl. by apply StronglySorted_app_1_l in Hl.
Qed.

Lemma sql_limit_NoDup {A} (n : Z) (l : list A) :
  NoDup l → NoDup (sql_limit n l).
Proof.
  destruct (sql_limit_take n l) as [k ->]. intros Hl.
  rewrite <- (take_drop k l) in Hl. by apply NoDup_app in Hl as [? _].
Qed.

(** ** Placement history *)

(** C8. For a bound [limit] that is not negative, [placement_history]
    returns at most [limit] entries.  Whatever the bound, each entry is a
    placement row of that item, and the entries are newest first: every
    entry's timestamp is at least the timestamp of every entry after it. *)
Theorem placement_history_bounded_newest_first
    (s : Store) (id : string) (limit : Z) :
  ((0 ≤ limit)%Z →
   (Z.of_nat (length (placement_history s id limit)) ≤ limit)%Z)
  ∧ (∀ e, e ∈ placement_history s id limit →
          ∃ p, p ∈ placements s ∧ p_item_id p = id ∧ e = history_entry_of p)
  ∧ StronglySorted (newest_first h_timestamp) (placement_history s id limit).
Proof.
  unfold placement_history, select_placements. split; [|split].
  - intros Hn. rewrite length_fmap. by apply sql_limit_length.
  - intros e He. apply list_elem_of_fmap in He as (p & -> & Hp).
    apply elem_of_sql_limit in Hp. rewrite elem_of_order_by_desc in Hp.
    apply list_elem_of_filter in Hp as [Hid Hp]. by exists p.
  - apply (StronglySorted_fmap _ (newest_first p_timestamp)); [auto|].
    apply sql_limit_sorted, order_by_desc_sorted.
Qed.

(** A negative bound is no bound: the whole history of the item comes back. *)
Lemma placement_history_negative_limit (s : Store) (id : string) (limit : Z) :
  (limit < 0)%Z →
  length (placement_history s id limit)
  = length (filter (fun p => p_item_id p = id) (placements s)).
Proof.
  intros Hneg. unfold placement_history, select_placements, sql_limit.
  rewrite (proj2 (Z.ltb_lt limit 0) Hneg), length_fmap.
  by rewrite order_by_desc_perm.
Qed.

Lemma placement_history_bounded_witness :
  (Z.of_nat (length (placement_history demo_store "towel" 1)) ≤ 1)%Z.
Proof.
  apply (proj1 (placement_history_bounded_newest_first demo_store "towel" 1)).
  lia.
Defined.

(** ** Neighbours *)

#[local] Instance neighbor_of_inj : Inj (=) (=) neighbor_of.
Proof.
  intros [[[b1 l1] z1] t1] [[[b2 l2] z2] t2] H.
  unfold neighbor_of in H; simpl in H. by inversion H.
Qed.

Lemma elem_of_neighbor_rows (s : Store) (id : string)
    (r : string * string * string * string) :
  r ∈ neighbor_rows s id ↔
  ∃ c i, c ∈ co_presence s ∧ i ∈ items s
         ∧ item_a c = id ∧ item_b c = item_id i
         ∧ r = (item_b c, label i, c_zone c, c_timestamp c).
Proof.
  unfold neighbor_rows. rewrite list_elem_of_bind. split.
  - intros (c & Hr & Hc). apply list_elem_of_bind in Hr as (i & Hr & Hi).
    case_decide as Hm; [|by apply elem_of_nil in Hr].
    apply list_elem_of_singleton in Hr. destruct Hm. by exists c, i.
  - intros (c & i & Hc & Hi & Ha & Hb & ->). exists c. split; [|done].
    apply list_elem_of_bind. exists i. split; [|done].
    rewrite decide_True by done. by apply list_elem_of_singleton.
Qed.

Lemma elem_of_recent_neighbors (s : Store) (id : string) (limit : Z)
    (n : neighbor) :
  n ∈ recent_neighbors s id limit →
  ∃ c i, c ∈ co_presence s ∧ i ∈ items s
         ∧ item_a c = id ∧ item_b c = item_id i
         ∧ n = {| n_item_id := item_b c; n_label := label i;
                  n_zone := c_zone c; n_timestamp := c_timestamp c |}.
Proof.
  unfold recent_neighbors. intros Hn.
  apply list_elem_of_fmap in Hn as (r & -> & Hr).
  apply elem_of_sql_limit in Hr. rewrite elem_of_order_by_desc in Hr.
  rewrite elem_of_remove_dups, elem_of_neighbor_rows in Hr.
  destruct Hr as (c & i & Hc & Hi & Ha & Hb & ->).
  by exists c, i.
Qed.

(** C2, as the code has it.  The rows returned by [recent_neighbors] are
    pairwise distinct as whole rows (neighbour, label, zone, timestamp),
    newest observation first, and at most [limit] of them when [limit] is
    not negative.  Each row is one co-presence sighting of the item with a
    registered neighbour, and with no bound every such sighting has its row:
    a neighbour seen at several timestamps has one row per sighting. *)
Theorem recent_neighbors_distinct_rows_newest_first
    (s : Store) (id : string) (limit : Z) :
  NoDup (recent_neighbors s id limit)
  ∧ StronglySorted (newest_first n_timestamp) (recent_neighbors s id limit)
  ∧ ((0 ≤ limit)%Z →
     (Z.of_nat (length (recent_neighbors s id limit)) ≤ limit)%Z)
  ∧ (∀ n, n ∈ recent_neighbors s id limit →
          ∃ c i, c ∈ co_presence s ∧ i ∈ items s
                 ∧ item_a c = id ∧ item_b c = item_id i
                 ∧ n = {| n_item_id := item_b c; n_label := label i;
                          n_zone := c_zone c; n_timestamp := c_timestamp c |})
  ∧ (∀ c i, c ∈ co_presence s → i ∈ items s →
            item_a c = id → item_b c = item_id i →
            {| n_item_id := item_b c; n_label := label i;
               n_zone := c_zone c; n_timestamp := c_timestamp c |}
            ∈ recent_neighbors s id (-1)).
Proof.
  split; [|split; [|split; [|split]]].
  - unfold recent_neighbors. apply (NoDup_fmap_2 _).
    apply sql_limit_NoDup. rewrite order_by_desc_perm. apply NoDup_remove_dups.
  - unfold recent_neighbors.
    apply (StronglySorted_fmap _ (newest_first (fun r => r.2))); [auto|].
    apply sql_limit_sorted, order_by_desc_sorted.
  - intros Hn. unfold recent_neighbors. rewrite length_fmap.
    by apply sql_limit_length.
  - apply elem_of_recent_neighbors.
  - intros c i Hc Hi Ha Hb. unfold recent_neighbors, sql_limit. simpl.
    apply (list_elem_of_fmap_2' neighbor_of _
             (item_b c, label i, c_zone c, c_timestamp c)); [|done].
    rewrite elem_of_order_by_desc, elem_of_remove_dups, elem_of_neighbor_rows.
    by exists c, i.
Qed.

Lemma recent_neighbors_bounded_witness :
  (Z.of_nat (length (recent_neighbors demo_store "towel" 1)) ≤ 1)%Z.
Proof.
  apply (recent_neighbors_distinct_rows_newest_first demo_store "towel" 1).
  lia.
Defined.

(** C2, as stated, fails on [demo_store]: the towel saw the soap twice, and
    [recent_neighbors] returns the soap twice, once per sighting. *)
Lemma recent_neighbors_repeats_neighbor :
  recent_neighbors demo_store "towel" 10
  = [ {| n_item_id := "soap"; n_label := "Hand soap"; n_zone := "hall";
         n_timestamp := "2024-01-02T08:00:00" |};
      {| n_item_id := "soap"; n_label := "Hand soap"; n_zone := "bathroom";
         n_timestamp := "2024-01-01T08:00:00" |} ]
  ∧ ¬ NoDup (n_item_id <$> recent_neighbors demo_store "towel" 10).
Proof.
  assert (E : recent_neighbors demo_store "towel" 10
              = [ {| n_item_id := "soap"; n_label := "Hand soap";
                     n_zone := "hall";
                     n_timestamp := "2024-01-02T08:00:00" |};
                  {| n_item_id := "soap"; n_label := "Hand soap";
                     n_zone := "bathroom";
                     n_timestamp := "2024-01-01T08:00:00" |} ])
    by (vm_compute; reflexivity).
  split; [exact E|]. rewrite E. cbn. intros H.
  apply NoDup_cons in H as [H _]. apply H. by left.
Qed.

(** C10. Every neighbour returned by [recent_neighbors] is registered in
    [items].  Recording a placement seen with an unregistered identity
    succeeds and writes the edge, yet that identity is absent from the
    neighbours returned afterwards. *)
Theorem recent_neighbors_only_registered :
  (∀ (s : Store) (id : string) (limit : Z) (n : neighbor),
      n ∈ recent_neighbors s id limit → registered s (n_item_id n))
  ∧ (∀ (utcnow id zone dtype : string) (routine motive : option string)
       (other : string) (timestamp meta : option string) (s : Store)
       (limit : Z),
      dtype ∈ distribution_types →
      ¬ registered s other →
      ∃ s', record_placement utcnow id zone dtype routine motive
              (Some [other]) timestamp meta s = (Ok tt, s')
            ∧ {| item_a := id; item_b := other; c_zone := zone;
                 c_timestamp := default utcnow timestamp |} ∈ co_presence s'
            ∧ other ∉ n_item_id <$> recent_neighbors s' id limit).
Proof.
  assert (Hreg : ∀ s id limit n,
             n ∈ recent_neighbors s id limit → registered s (n_item_id n)).
  { intros s id limit n Hn.
    apply elem_of_recent_neighbors in Hn as (c & i & _ & Hi & _ & Hb & ->).
    by exists i. }
  split; [exact Hreg|].
  intros utcnow id zone dtype routine motive other timestamp meta s limit Hd Hu.
  eexists. split; [by apply record_placement_valid|]. split.
  - cbn [appended co_presence default]. apply elem_of_app. right.
    unfold edge_pairs, edge_pair. cbn. by left.
  - intros Hin. apply list_elem_of_fmap in Hin as (n & -> & Hn).
    apply Hreg in Hn. by apply Hu.
Qed.

Lemma recent_neighbors_only_registered_witness :
  ∃ s', record_placement "2024-01-03T08:00:00" "towel" "hall" "placed"
          None None (Some ["mug"]) None None demo_store = (Ok tt, s')
        ∧ "mug" ∉ n_item_id <$> recent_neighbors s' "towel" 10.
Proof.
  destruct (proj2 recent_neighbors_only_registered
              "2024-01-03T08:00:00" "towel" "hall" "placed" None None
              "mug" None None demo_store 10%Z)
    as (s' & Hrun & _ & Hout).
  - apply (bool_decide_unpack _). vm_compute. exact I.
  - intros (i & Hi & Hid). vm_compute in Hi.
    apply elem_of_cons in Hi as [-> | Hi]; [discriminate Hid|].
    apply list_elem_of_singleton in Hi. subst i. discriminate Hid.
  - exists s'. split; [exact Hrun | exact Hout].
Defined.

(** ** Items in a zone *)

Lemma sql_max_nil (l : list string) : sql_max l = None → l = [].
Proof.
  destruct l as [|t l]; [done|]. simpl.
  destruct (sql_max l) as [m|]; [|done]. by destruct (String.leb m t).
Qed.

Lemma sql_max_upper (l : list string) (m : string) :
  sql_max l = Some m → m ∈ l ∧ ∀ t, t ∈ l → ts_le t m.
Proof.
  revert m. induction l as [|t l IH]; intros m; [done|]. simpl.
  destruct (sql_max l) as [m'|] eqn:E.
  - destruct (IH m' eq_refl) as [Hin Hup].
    destruct (String.leb m' t) eqn:Hle; intros [= <-].
    + split; [by left|]. intros u [-> | Hu]%elem_of_cons; [apply ts_le_refl|].
      transitivity m'; [by apply Hup | exact Hle].
    + split; [by right|]. intros u [-> | Hu]%elem_of_cons; [|by apply Hup].
      destruct (ts_le_total t m') as [H | H]; [exact H|].
      unfold ts_le in H. congruence.
  - intros [= <-]. apply sql_max_nil in E as ->.
    split; [by left|]. intros u ->%list_elem_of_singleton. apply ts_le_refl.
Qed.

Lemma sql_max_Some (l : list string) (m : string) :
  sql_max l = Some m ↔ m ∈ l ∧ ∀ t, t ∈ l → ts_le t m.
Proof.
  split; [apply sql_max_upper|]. intros [Hin Hup].
  destruct (sql_max l) as [m'|] eqn:E.
  - apply sql_max_upper in E as [Hin' Hup']. f_equal.
    apply (anti_symm ts_le); auto.
  - apply sql_max_nil in E as ->. by apply elem_of_nil in Hin.
Qed.

Lemma ts_lt_not_le (a b : string) : ts_lt a b → ¬ ts_le b a.
Proof.
  unfold ts_lt, ts_le, String.leb. intros H.
  rewrite String.compare_antisym, H. discriminate.
Qed.

Lemma max_timestamp_Some (s : Store) (id t : string) :
  max_timestamp s id = Some t ↔
  (∃ p, p ∈ placements s ∧ p_item_id p = id ∧ p_timestamp p = t)
  ∧ ∀ q, q ∈ placements s → p_item_id q = id → ts_le (p_timestamp q) t.
Proof.
  unfold max_timestamp. rewrite sql_max_Some. split.
  - intros [Hin Hup]. split.
    + apply list_elem_of_fmap in Hin as (p & -> & Hp).
      apply list_elem_of_filter in Hp as [Hid Hp]. by exists p.
    + intros q Hq Hid. apply Hup. apply list_elem_of_fmap. exists q.
      split; [done|]. by apply list_elem_of_filter.
  - intros [(p & Hp & Hid & <-) Hup]. split.
    + apply list_elem_of_fmap. exists p. split; [done|].
      by apply list_elem_of_filter.
    + intros t (q & -> & Hq)%list_elem_of_fmap.
      apply list_elem_of_filter in Hq as [Hqid Hq]. by apply Hup.
Qed.

Lemma elem_of_zone_rows (s : Store) (zone : string)
    (r : string * string * string * string * string) :
  r ∈ zone_rows s zone ↔
  ∃ i p, i ∈ items s ∧ p ∈ placements s
         ∧ item_id i = p_item_id p ∧ p_zone p = zone
         ∧ Some (p_timestamp p) = max_timestamp s (item_id i)
         ∧ r = (item_id i, label i, category i,
                p_distribution_type p, p_timestamp p).
Proof.
  unfold zone_rows. rewrite list_elem_of_bind. split.
  - intros (i & Hr & Hi). apply list_elem_of_bind in Hr as (p & Hr & Hp).
    case_decide as Hm; [|by apply elem_of_nil in Hr].
    apply list_elem_of_singleton in Hr. destruct Hm as (? & ? & ?).
    by exists i, p.
  - intros (i & p & Hi & Hp & Hid & Hz & Hmax & ->). exists i. split; [|done].
    apply list_elem_of_bind. exists p. split; [|done].
    rewrite decide_True by done. by apply list_elem_of_singleton.
Qed.

(** C5. An identity is among the items returned by [items_in_zone] for a
    zone exactly when it is registered and one of its placements carrying
    its latest timestamp, taken over all zones, is in that zone.  An item
    whose placements in the zone are all strictly earlier than a placement of
    it elsewhere is not returned. *)
Theorem items_in_zone_latest_placement (s : Store) (zone id : string) :
  (id ∈ z_item_id <$> items_in_zone s zone ↔
   registered s id
   ∧ ∃ p, p ∈ placements s ∧ p_item_id p = id ∧ p_zone p = zone
          ∧ ∀ q, q ∈ placements s → p_item_id q = id →
                 ts_le (p_timestamp q) (p_timestamp p))
  ∧ (∀ p', p' ∈ placements s → p_item_id p' = id → p_zone p' ≠ zone →
           (∀ q, q ∈ placements s → p_item_id q = id → p_zone q = zone →
                 ts_lt (p_timestamp q) (p_timestamp p')) →
           id ∉ z_item_id <$> items_in_zone s zone).
Proof.
  assert (Hiff : id ∈ z_item_id <$> items_in_zone s zone ↔
            registered s id
            ∧ ∃ p, p ∈ placements s ∧ p_item_id p = id ∧ p_zone p = zone
                   ∧ ∀ q, q ∈ placements s → p_item_id q = id →
                          ts_le (p_timestamp q) (p_timestamp p)).
  { unfold items_in_zone. split.
    - intros (z & -> & Hz)%list_elem_of_fmap.
      apply list_elem_of_fmap in Hz as (r & -> & Hr).
      rewrite elem_of_remove_dups, elem_of_zone_rows in Hr.
      destruct Hr as (i & p & Hi & Hp & Hid & Hzone & Hmax & ->).
      cbn. symmetry in Hmax. apply max_timestamp_Some in Hmax as [_ Hup].
      split; [by exists i|]. exists p. by rewrite <- Hid.
    - intros [(i & Hi & Hid) (p & Hp & Hpid & Hzone & Hup)].
      apply list_elem_of_fmap.
      exists (zone_item_of (item_id i, label i, category i,
                            p_distribution_type p, p_timestamp p)).
      split; [by rewrite Hid|]. apply list_elem_of_fmap_2.
      rewrite elem_of_remove_dups, elem_of_zone_rows.
      exists i, p. repeat split; try done; [congruence|].
      symmetry. apply max_timestamp_Some. rewrite Hid. split; [|done].
      by exists p. }
  split; [exact Hiff|].
  intros p' Hp' Hid' Hz' Hlater Hin. apply Hiff in Hin as [_ (p & Hp & Hid & Hz & Hup)].
  apply (ts_lt_not_le (p_timestamp p) (p_timestamp p')); auto.
Qed.

Lemma items_in_zone_latest_placement_witness :
  "towel" ∉ z_item_id <$> items_in_zone demo_store "bathroom".
Proof.
  apply (proj2 (items_in_zone_latest_placement demo_store "bathroom" "towel")
           {| p_item_id := "towel"; p_zone := "hall";
              p_distribution_type := "stack";
              p_routine := None; p_motive := None;
              p_timestamp := "2024-01-02T08:00:00"; p_metadata := "{}" |}).
  - apply (bool_decide_unpack _). vm_compute. exact I.
  - reflexivity.
  - discriminate.
  - intros q Hq. vm_compute in Hq.
    apply elem_of_cons in Hq as [-> | Hq].
    + intros _ _. reflexivity.
    + apply list_elem_of_singleton in Hq as ->. intros _ Hz. discriminate Hz.
Defined.

(** ** Distribution patterns *)

Local Close Scope Q_scope.
Local Open Scope nat_scope.

Section GroupCount.
Context {A K : Type} `{EqDecision K} (key : A → K).

(** Number of rows of [l] in the group of [k]. *)
Let count (l : list A) (k : K) : nat :=
  length (filter (fun x => key x = k) l).

Lemma count_cons (x : A) (l : list A) (k : K) :
  count (x :: l) k = (if decide (key x = k) then 1 else 0) + count l k.
Proof.
  unfold count. rewrite filter_cons. by destruct (decide (key x = k)).
Qed.

Lemma sum_list_fmap_plus (f g : K → nat) (ks : list K) :
  sum_list ((fun k => f k + g k) <$> ks)
  = sum_list (f <$> ks) + sum_list (g <$> ks).
Proof. induction ks as [|k ks IH]; csimpl; [done|]. rewrite IH. unfold id. lia. Qed.

Lemma sum_indicator_absent (k0 : K) (ks : list K) :
  k0 ∉ ks →
  sum_list ((fun k => if decide (k0 = k) then 1 else 0) <$> ks) = 0.
Proof.
  induction ks as [|k ks IH]; csimpl; [done|].
  intros [Hne Hks]%not_elem_of_cons. rewrite IH by done.
  by rewrite decide_False.
Qed.

Lemma sum_indicator_present (k0 : K) (ks : list K) :
  NoDup ks → k0 ∈ ks →
  sum_list ((fun k => if decide (k0 = k) then 1 else 0) <$> ks) = 1.
Proof.
  induction 1 as [|k ks Hk Hnd IH]; [by intros ?%elem_of_nil|].
  csimpl. intros [-> | Hin]%elem_of_cons.
  - rewrite decide_True by done. by rewrite sum_indicator_absent.
  - rewrite decide_False by (intros ->; contradiction). by rewrite IH.
Qed.

Lemma sum_counts (ks : list K) (l : list A) :
  NoDup ks → (∀ x, x ∈ l → key x ∈ ks) →
  sum_list (count l <$> ks) = length l.
Proof.
  intros Hnd. induction l as [|x l IH]; intros Hkeys.
  - rewrite (list_fmap_ext (count []) (fun _ => 0) ks) by done.
    by rewrite sum_list_fmap_const, Nat.mul_0_r.
  - rewrite (list_fmap_ext (count (x :: l))
               (fun k => (if decide (key x = k) then 1 else 0) + count l k) ks)
      by (intros; apply count_cons).
    rewrite sum_list_fmap_plus, sum_indicator_present, IH; try done.
    + intros y Hy. apply Hkeys. by right.
    + apply Hkeys. by left.
Qed.

Lemma group_count_keys (l : list A) :
  (group_count key l).*1 = remove_dups (key <$> l).
Proof.
  unfold group_count. rewrite <- list_fmap_compose.
  induction (remove_dups (key <$> l)) as [|k ks IH]; csimpl; [done|].
  by rewrite IH.
Qed.

Lemma group_count_sum (l : list A) :
  sum_list ((group_count key l).*2) = length l.
Proof.
  unfold group_count. rewrite <- list_fmap_compose.
  apply (sum_counts (remove_dups (key <$> l)) l).
  - apply NoDup_remove_dups.
  - intros x Hx. apply elem_of_remove_dups. by apply list_elem_of_fmap_2.
Qed.
End GroupCount.

Lemma dict_of_rows_acc (rows : list (string * nat)) (d : gmap string nat) :
  NoDup rows.*1 → (∀ k, k ∈ rows.*1 → d !! k = None) →
  map_to_list (foldl (fun d r => <[r.1 := r.2]> d) d rows)
  ≡ₚ (rows ++ map_to_list d)%list.
Proof.
  revert d. induction rows as [|[k v] rows IH]; intros d Hnd Hfresh; [done|].
  cbn [foldl fst snd]. csimpl in Hnd. apply NoDup_cons in Hnd as [Hk Hnd].
  rewrite IH.
  - rewrite map_to_list_insert by (apply Hfresh; by left).
    by rewrite <- Permutation_middle.
  - done.
  - intros k' Hk'. rewrite lookup_insert_ne by (intros ->; contradiction).
    apply Hfresh. by right.
Qed.

Lemma dict_of_rows_sum (rows : list (string * nat)) :
  NoDup rows.*1 → dict_sum (dict_of_rows rows) = sum_list rows.*2.
Proof.
  intros Hnd. unfold dict_sum, dict_of_rows.
  rewrite (dict_of_rows_acc rows ∅ Hnd) by (intros; apply lookup_empty).
  by rewrite map_to_list_empty, app_nil_r.
Qed.

(** C9. The counts stored in [overall_counts], summed over all distribution
    types, give the number of rows of [placements]: every placement ever
    recorded is counted, and counted once. *)
Theorem overall_counts_sum_is_total (s : Store) :
  dict_sum (overall_counts (distribution_patterns s)) = length (placements s).
Proof.
  unfold distribution_patterns; cbn [overall_counts].
  rewrite dict_of_rows_sum.
  - apply group_count_sum.
  - rewrite group_count_keys. apply NoDup_remove_dups.
Qed.

(** ** Refill status *)

Local Close Scope nat_scope.

Lemma Qgtb_true (a b : Q) : Qgtb a b = true ↔ (b < a)%Q.
Proof.
  unfold Qgtb. rewrite Qgt_alt. destruct (a ?= b)%Q; split; congruence.
Qed.

Lemma Qltb_true (a b : Q) : Qltb a b = true ↔ (a < b)%Q.
Proof.
  unfold Qltb. rewrite Qlt_alt. destruct (a ?= b)%Q; split; congruence.
Qed.

Lemma Qeq_bool_false (a b : Q) : ¬ (a == b)%Q → Qeq_bool a b = false.
Proof.
  intros H. destruct (Qeq_bool a b) eqn:E; [|done].
  by apply Qeq_bool_iff in E.
Qed.

(** ** Doubles *)

Lemma pow2_pos (p : Z) : (0 < 2 ^ p)%Q.
Proof. by apply Qpower_0_lt. Qed.

Lemma pow2_add (a b : Z) : (2 ^ (a + b) == 2 ^ a * 2 ^ b)%Q.
Proof. by apply Qpower_plus. Qed.

Lemma pow2_le (a b : Z) : (a ≤ b)%Z → (2 ^ a <= 2 ^ b)%Q.
Proof. intros H. by apply Qpower_le_compat_l. Qed.

Lemma pow2_inject (a : Z) : (0 ≤ a)%Z → (inject_Z (2 ^ a) == 2 ^ a)%Q.
Proof. intros H. by rewrite Zpower_Qpower. Qed.

Lemma pow2_cancel (a : Z) : (2 ^ a * 2 ^ (- a) == 1)%Q.
Proof. rewrite <- pow2_add. by rewrite Z.add_opp_diag_r. Qed.

Lemma Qabs_num_den (x : Q) :
  (Qabs x == inject_Z (Z.abs (Qnum x)) / inject_Z (Z.pos (Qden x)))%Q.
Proof.
  destruct x as [n d]. unfold Qabs. cbn [Qnum Qden].
  rewrite (Qmake_Qdiv (Z.abs n) d). reflexivity.
Qed.

(** [floor_log2 x] is a lower estimate: [2 ^ floor_log2 x <= |x|]. *)
Lemma floor_log2_lower (x : Q) :
  ¬ (x == 0)%Q → (2 ^ floor_log2 x <= Qabs x)%Q.
Proof.
  intros Hx. rewrite Qabs_num_den. unfold floor_log2.
  set (n := Z.abs (Qnum x)). set (d := Z.pos (Qden x)).
  assert (Hn : (0 < n)%Z).
  { unfold n. destruct x as [[|k|k] dd]; cbn; try lia.
    exfalso. apply Hx. reflexivity. }
  assert (Hd : (0 < d)%Z) by (unfold d; lia).
  pose proof (Z.log2_spec n Hn) as [Hn1 Hn2].
  pose proof (Z.log2_spec d Hd) as [Hd1 Hd2].
  pose proof (Z.log2_nonneg n) as Ha. pose proof (Z.log2_nonneg d) as Hb.
  set (a := Z.log2 n) in *. set (b := Z.log2 d) in *.
  assert (HdQ : (0 < inject_Z d)%Q)
    by (change 0%Q with (inject_Z 0); rewrite <- Zlt_Qlt; lia).
  apply Qle_shift_div_l; [done|].
  destruct (Z.leb_spec (d * 2 ^ Z.max 0 (a - b)) (n * 2 ^ Z.max 0 (- (a - b))))
    as [Hle | Hgt].
  - destruct (Z.le_gt_cases 0 (a - b)) as [He | He].
    + rewrite Z.max_r in Hle by lia. rewrite Z.max_l in Hle by lia.
      rewrite Z.pow_0_r, Z.mul_1_r in Hle.
      rewrite <- pow2_inject by lia. rewrite <- inject_Z_mult.
      rewrite <- Zle_Qle. lia.
    + rewrite Z.max_l in Hle by lia. rewrite Z.max_r in Hle by lia.
      rewrite Z.pow_0_r, Z.mul_1_r in Hle.
      rewrite Zle_Qle, inject_Z_mult, pow2_inject in Hle by lia.
      pose proof (pow2_cancel (a - b)) as Hc.
      pose proof (pow2_pos (a - b)) as Hp.
      apply (Qmult_le_l _ _ (2 ^ (- (a - b)))); [apply pow2_pos|].
      rewrite Qmult_assoc, (Qmult_comm (2 ^ _) (2 ^ (a - b))), Hc, Qmult_1_l.
      by rewrite Qmult_comm.
  - assert (Hd3 : (inject_Z d <= 2 ^ (b + 1))%Q).
    { rewrite <- pow2_inject by lia. rewrite <- Zle_Qle.
      unfold Z.succ in Hd2. lia. }
    assert (Hn3 : (2 ^ a <= inject_Z n)%Q).
    { rewrite <- pow2_inject by lia. by rewrite <- Zle_Qle. }
    apply (Qle_trans _ (2 ^ (a - b - 1) * 2 ^ (b + 1))).
    + apply Qmult_le_l; [apply pow2_pos | done].
    + rewrite <- pow2_add. by replace (a - b - 1 + (b + 1))%Z with a by lia.
Qed.

Lemma round_half_even_cases (y : Q) :
  round_half_even y = Qfloor y ∨ round_half_even y = (Qfloor y + 1)%Z.
Proof.
  unfold round_half_even.
  destruct (Qcompare _ _); [destruct (Z.even _)| |]; auto.
Qed.

Lemma round_half_even_ge (m : Z) (y : Q) :
  (inject_Z m <= y)%Q → (m ≤ round_half_even y)%Z.
Proof.
  intros H. apply Qfloor_resp_le in H. rewrite Qfloor_Z in H.
  destruct (round_half_even_cases y) as [-> | ->]; lia.
Qed.

Lemma round_half_even_le (m : Z) (y : Q) :
  (y <= inject_Z m)%Q → (round_half_even y ≤ m)%Z.
Proof.
  intros H. pose proof (Qfloor_resp_le _ _ H) as Hf. rewrite Qfloor_Z in Hf.
  destruct (Z.eq_dec (Qfloor y) m) as [Heq | Hne].
  - unfold round_half_even.
    assert (Hc : Qcompare (y - inject_Z (Qfloor y)) (1 # 2) = Lt).
    { apply (proj1 (Qlt_alt _ _)). rewrite Heq.
      pose proof (Qfloor_le y) as Hl. rewrite Heq in Hl. lra. }
    rewrite Hc. lia.
  - destruct (round_half_even_cases y) as [-> | ->]; lia.
Qed.

Lemma round_half_even_abs_ge (m : Z) (y : Q) :
  (inject_Z m <= Qabs y)%Q → (m ≤ Z.abs (round_half_even y))%Z.
Proof.
  intros H. destruct (Qlt_le_dec y 0) as [Hneg | Hpos].
  - rewrite Qabs_neg in H by lra.
    assert (Hle : (round_half_even y ≤ - m)%Z).
    { apply round_half_even_le. rewrite inject_Z_opp. lra. }
    lia.
  - rewrite Qabs_pos in H by done.
    pose proof (round_half_even_ge m y H). lia.
Qed.

Lemma nearest_double_zero (x : Q) : (x == 0)%Q → nearest_double x = 0%Q.
Proof.
  intros H. unfold nearest_double.
  by rewrite (proj2 (Qeq_bool_iff x 0) H).
Qed.

Lemma round_half_even_nonneg (x : Q) :
  (0 <= x)%Q → (0 ≤ round_half_even x)%Z.
Proof. intros Hx. by apply round_half_even_ge. Qed.

Lemma nearest_double_nonneg (x : Q) :
  (0 <= x)%Q → (0 <= nearest_double x)%Q.
Proof.
  intros Hx. unfold nearest_double. destruct (Qeq_bool x 0); [lra|].
  cbn zeta. set (p := Z.max _ _).
  pose proof (pow2_pos p) as Hp.
  assert (Hr : (0 ≤ round_half_even (x / 2 ^ p))%Z).
  { apply round_half_even_nonneg. apply Qle_shift_div_l; [done|]. lra. }
  rewrite Zle_Qle in Hr. change (inject_Z 0) with 0%Q in Hr.
  apply Qmult_le_0_compat; [done|lra].
Qed.

(** Rounding to the nearest double does not go below a power of two that
    is itself a double. *)
Lemma nearest_double_abs_ge (x : Q) (k : Z) :
  (-1074 ≤ k)%Z → (2 ^ k <= Qabs x)%Q →
  (2 ^ k <= Qabs (nearest_double x))%Q.
Proof.
  intros Hk Hx.
  assert (Hne : ¬ (x == 0)%Q).
  { intros H0. rewrite H0 in Hx. pose proof (pow2_pos k).
    change (Qabs 0) with 0%Q in Hx. lra. }
  unfold nearest_double. rewrite (Qeq_bool_false _ _ Hne). cbn zeta.
  pose proof (floor_log2_lower x Hne) as He.
  set (e := floor_log2 x) in *. set (p := Z.max (e - 52) (-1074)).
  pose proof (pow2_pos p) as Hp.
  rewrite Qabs_Qmult, (Qabs_pos (2 ^ p)) by lra.
  assert (Hy : ∀ j, (0 ≤ j)%Z → (2 ^ (j + p) <= Qabs x)%Q →
                    (2 ^ (j + p)
                     <= Qabs (inject_Z (round_half_even (x / 2 ^ p))) * 2 ^ p)%Q).
  { intros j Hj Hb. rewrite pow2_add.
    apply Qmult_le_compat_r; [|lra].
    rewrite <- pow2_inject by done.
    change (Qabs (inject_Z ?z)) with (inject_Z (Z.abs z)).
    rewrite <- Zle_Qle. apply round_half_even_abs_ge.
    rewrite pow2_inject by done. unfold Qdiv.
    rewrite Qabs_Qmult, Qabs_Qinv, (Qabs_pos (2 ^ p)) by lra.
    apply Qle_shift_div_l; [done|]. by rewrite <- pow2_add. }
  destruct (Z.le_gt_cases p k) as [Hpk | Hpk].
  - replace k with ((k - p) + p)%Z by lia. apply Hy; [lia|].
    by replace (k - p + p)%Z with k by lia.
  - assert (Hpe : p = (e - 52)%Z) by lia.
    apply (Qle_trans _ (2 ^ (52 + p))).
    + apply pow2_le. lia.
    + apply Hy; [lia|]. by replace (52 + p)%Z with e by lia.
Qed.

Lemma round1_nonneg (x : Q) : (0 <= x)%Q → (0 <= round1 x)%Q.
Proof.
  intros Hx. unfold round1. apply nearest_double_nonneg.
  assert (Hr : (0 ≤ round_half_even (x * 10))%Z)
    by (apply round_half_even_nonneg; lra).
  rewrite Zle_Qle in Hr. change (inject_Z 0) with 0%Q in Hr.
  apply Qle_shift_div_l; [reflexivity|]. lra.
Qed.

Lemma round1_zero (x : Q) : (x == 0)%Q → (round1 x == 0)%Q.
Proof.
  intros Hx. unfold round1.
  assert (Hr : round_half_even (x * 10) = 0%Z).
  { apply Z.le_antisymm.
    - apply round_half_even_le. change (inject_Z 0) with 0%Q. lra.
    - apply round_half_even_ge. change (inject_Z 0) with 0%Q. lra. }
  rewrite Hr. by rewrite nearest_double_zero.
Qed.

Lemma or_zero_Z_default (x : option Z) : or_zero_Z x = default 0%Z x.
Proof.
  destruct x as [v|]; simpl; [|done].
  destruct (Z.eqb_spec v 0); congruence.
Qed.

Lemma or_zero_Q_positive (u : Q) : (0 < u)%Q → or_zero_Q (Some u) = u.
Proof.
  intros Hu. simpl. rewrite Qeq_bool_false; [done|]. lra.
Qed.

Lemma or_zero_Q_not_positive (x : option Q) :
  (∀ u, x = Some u → ¬ (0 < u)%Q) → Qgtb (or_zero_Q x) 0 = false.
Proof.
  intros H. destruct (Qgtb (or_zero_Q x) 0) eqn:E; [|done].
  apply Qgtb_true in E. destruct x as [u|]; simpl in E.
  - destruct (Qeq_bool u 0); [lra|]. by apply H in E.
  - lra.
Qed.

(** The quotient of a nonzero integer by a positive double does not round
    to zero: it is at least [2 ^ -1024], above the least subnormal. *)
Lemma float_quotient_nonzero (q : Z) (u : Q) :
  (0 < u)%Q → (u < 2 ^ 1024)%Q → q ≠ 0%Z →
  ¬ (nearest_double (float_of_int q / u) == 0)%Q.
Proof.
  intros Hu Hmax Hq H.
  assert (H1 : (1 <= Qabs (float_of_int q))%Q).
  { apply (nearest_double_abs_ge (inject_Z q) 0); [lia|].
    change (2 ^ 0)%Q with (inject_Z 1).
    change (Qabs (inject_Z q)) with (inject_Z (Z.abs q)).
    rewrite <- Zle_Qle. lia. }
  pose proof (pow2_pos 1024) as Hp. pose proof (pow2_pos (-1074)) as Hs.
  assert (H2 : (2 ^ (-1074) <= Qabs (float_of_int q / u))%Q).
  { unfold Qdiv. rewrite Qabs_Qmult, Qabs_Qinv, (Qabs_pos u) by lra.
    apply Qle_shift_div_l; [done|].
    apply (Qle_trans _ (2 ^ (-1074) * 2 ^ 1024)).
    - apply Qmult_le_l; [done | lra].
    - rewrite <- pow2_add.
      apply (Qle_trans _ (2 ^ 0)); [by apply pow2_le | exact H1]. }
  apply (nearest_double_abs_ge _ (-1074)) in H2; [|lia].
  rewrite H in H2. change (Qabs 0) with 0%Q in H2. lra.
Qed.

(** A tie of the decimal quotient is decided by the double: three units at
    twenty a day are 0.15, the nearest double lies below 0.15, and the
    rounding gives the double nearest to 0.1, not to 0.2. *)
Lemma round1_follows_the_double :
  (round1 (nearest_double (float_of_int 3 / 20)) == nearest_double (1 # 10))%Q
  ∧ (nearest_double (float_of_int 3 / 20) < 15 # 100)%Q.
Proof. split; vm_compute; reflexivity. Qed.

(** The division of [refill_status_of] is guarded by [usage_rate > 0]: the
    function returns, with exactly these fields. *)
Lemma refill_status_of_Ok (item : item_row) :
  refill_status_of item
  = Ok {| rs_current_quantity := or_zero_Z (current_quantity item);
          rs_refill_threshold := or_zero_Z (refill_threshold item);
          needs_refill := (or_zero_Z (current_quantity item)
                           <=? or_zero_Z (refill_threshold item))%Z;
          days_remaining :=
            if Qgtb (or_zero_Q (usage_rate_per_day item)) 0
            then let d := nearest_double
                            (float_of_int (or_zero_Z (current_quantity item))
                             / or_zero_Q (usage_rate_per_day item)) in
                 if Qeq_bool d 0 then None else Some (round1 d)
            else None |}.
Proof.
  unfold refill_status_of.
  destruct (Qgtb (or_zero_Q (usage_rate_per_day item)) 0) eqn:E; [|done].
  apply Qgtb_true in E. unfold truediv.
  rewrite Qeq_bool_false by lra. reflexivity.
Qed.

Lemma good_stuff_dates_other (item : item_row) :
  category item ≠ "good_stuff" → good_stuff_dates item = None.
Proof.
  intros Hc. unfold good_stuff_dates.
  destruct (purchase_date item), (expected_lifespan_years item); try done.
  apply String.eqb_neq in Hc. by rewrite Hc.
Qed.

Lemma item_status_refillable (age_days : string → age_result) (s : Store)
    (id : string) (item : item_row) :
  find_item s id = Some item → category item = "refillable" →
  ∃ st rs, item_status age_days s id = Ok (Some st)
           ∧ refill_status st = Some rs
           ∧ refill_status_of item = Ok rs.
Proof.
  intros Hfind Hcat. unfold item_status. rewrite Hfind.
  rewrite good_stuff_dates_other by (rewrite Hcat; discriminate).
  rewrite Hcat. cbn [String.eqb]. rewrite !Ascii.eqb_refl.
  rewrite refill_status_of_Ok. cbn [mbind result_bind].
  eexists _, _. split; [reflexivity|]. split; reflexivity.
Qed.

(** C7. For a refillable item, [item_status] returns a status whose
    [refill_status] has [needs_refill] true exactly when the current
    quantity is at most the refill threshold, an absent quantity or
    threshold counting as 0; equal values give true. *)
Theorem needs_refill_iff_quantity_le_threshold
    (age_days : string → age_result) (s : Store) (id : string)
    (item : item_row) :
  find_item s id = Some item → category item = "refillable" →
  ∃ st rs, item_status age_days s id = Ok (Some st)
           ∧ refill_status st = Some rs
           ∧ (needs_refill rs = true ↔
              (default 0 (current_quantity item)
               ≤ default 0 (refill_threshold item))%Z).
Proof.
  intros Hfind Hcat.
  destruct (item_status_refillable age_days s id item Hfind Hcat)
    as (st & rs & Hst & Hrs & Hof).
  exists st, rs. split; [done|]. split; [done|].
  rewrite refill_status_of_Ok in Hof. injection Hof as <-.
  cbn [needs_refill]. rewrite !or_zero_Z_default. apply Z.leb_le.
Qed.

Lemma needs_refill_witness :
  ∃ st rs, item_status demo_clock demo_store "soap" = Ok (Some st)
           ∧ refill_status st = Some rs
           ∧ (needs_refill rs = true ↔ (0 ≤ 2)%Z).
Proof.
  apply (needs_refill_iff_quantity_le_threshold demo_clock demo_store "soap"
           {| item_id := "soap"; label := "Hand soap";
              category := "refillable"; purchase_date := None;
              expected_lifespan_years := None;
              current_quantity := Some 0%Z; refill_threshold := Some 2%Z;
              usage_rate_per_day := Some 1%Q; metadata := "{}" |}).
  - vm_compute. reflexivity.
  - reflexivity.
Defined.

(** C1, as the code has it.  For a refillable item whose usage rate is a
    positive double and whose current quantity is a 64-bit integer other
    than zero, with a quotient inside the range of the doubles,
    [item_status] reports [days_remaining] as Python computes
    [round(quantity / usage_rate, 1)]: the quantity made a float, the
    double nearest to the quotient, and that double rounded to one decimal.
    When the usage rate is absent or not positive, [days_remaining] is
    absent. *)
Theorem days_remaining_rounded_quotient
    (age_days : string → age_result) (s : Store) (id : string)
    (item : item_row) :
  find_item s id = Some item → category item = "refillable" →
  ∃ st rs, item_status age_days s id = Ok (Some st)
           ∧ refill_status st = Some rs
           ∧ (∀ (u : Q) (q : Z),
                 usage_rate_per_day item = Some u → (0 < u)%Q →
                 is_double u →
                 current_quantity item = Some q → q ≠ 0%Z → is_int64 q →
                 (Qabs (float_of_int q / u) < 2 ^ 1024 - 2 ^ 970)%Q →
                 days_remaining rs
                 = Some (round1 (nearest_double (float_of_int q / u))))
           ∧ ((∀ u, usage_rate_per_day item = Some u → ¬ (0 < u)%Q) →
              days_remaining rs = None).
Proof.
  intros Hfind Hcat.
  destruct (item_status_refillable age_days s id item Hfind Hcat)
    as (st & rs & Hst & Hrs & Hof).
  exists st, rs. split; [done|]. split; [done|].
  rewrite refill_status_of_Ok in Hof. injection Hof as <-.
  cbn [days_remaining]. split.
  - intros u q Hu Hpos [_ Hmax] Hq Hq0 _ _. rewrite Hu, Hq.
    rewrite (or_zero_Q_positive u Hpos).
    replace (or_zero_Z (Some q)) with q
      by (simpl; destruct (Z.eqb_spec q 0); congruence).
    rewrite (proj2 (Qgtb_true u 0) Hpos). cbn zeta.
    rewrite (Qabs_pos u) in Hmax by lra.
    by rewrite (Qeq_bool_false _ _ (float_quotient_nonzero q u Hpos Hmax Hq0)).
  - intros Hu. by rewrite or_zero_Q_not_positive.
Qed.

Lemma days_remaining_rounded_quotient_witness :
  ∃ st rs, item_status demo_clock salt_store "salt" = Ok (Some st)
           ∧ refill_status st = Some rs
           ∧ days_remaining rs
             = Some (round1 (nearest_double (float_of_int 1 / 3))).
Proof.
  destruct (days_remaining_rounded_quotient demo_clock salt_store "salt"
              {| item_id := "salt"; label := "Table salt";
                 category := "refillable"; purchase_date := None;
                 expected_lifespan_years := None;
                 current_quantity := Some 1%Z; refill_threshold := Some 0%Z;
                 usage_rate_per_day := Some 3%Q; metadata := "{}" |})
    as (st & rs & Hst & Hrs & Hsome & _).
  - vm_compute. reflexivity.
  - reflexivity.
  - exists st, rs. split; [exact Hst|]. split; [exact Hrs|].
    apply (Hsome 3%Q 1%Z).
    + reflexivity.
    + reflexivity.
    + split; vm_compute; reflexivity.
    + reflexivity.
    + discriminate.
    + unfold is_int64. lia.
    + vm_compute. reflexivity.
Defined.

(** C1, as stated, fails twice.  The salt, one unit used at three a day, is
    reported with the double nearest to 0.3 as its days remaining, which is
    neither one third nor the double nearest to one third.  The soap, no
    unit left and used at one a day, is reported with no [days_remaining] at
    all instead of 0. *)
Lemma days_remaining_not_the_quotient :
  (∃ d, reported_days_remaining (item_status demo_clock salt_store "salt")
        = Some (Some d)
        ∧ (d == nearest_double (3 # 10))%Q
        ∧ ¬ (d == inject_Z 1 / 3)%Q
        ∧ ¬ (d == nearest_double (inject_Z 1 / 3))%Q)
  ∧ reported_days_remaining (item_status demo_clock demo_store "soap")
    = Some None.
Proof.
  split.
  - exists (round1 (nearest_double (float_of_int 1 / 3))).
    split; [vm_compute; reflexivity|].
    split; [vm_compute; reflexivity|].
    split; vm_compute; discriminate.
  - vm_compute. reflexivity.
Qed.

(** ** Items needing attention *)

Lemma elem_of_select_aging (s : Store) (row : string * string * string * Q) :
  row ∈ select_aging s ↔
  ∃ r, r ∈ items s ∧ category r = "good_stuff"
       ∧ purchase_date r = Some row.1.2
       ∧ expected_lifespan_years r = Some row.2
       ∧ row.1.1.1 = item_id r ∧ row.1.1.2 = label r.
Proof.
  unfold select_aging. rewrite list_elem_of_omap. split.
  - intros (r & Hr & Hsel). exists r.
    destruct (purchase_date r) as [pd|], (expected_lifespan_years r) as [L|];
      try done.
    destruct (String.eqb_spec (category r) "good_stuff") as [Hc|]; [|done].
    injection Hsel as <-. by cbn.
  - intros (r & Hr & Hc & Hpd & HL & Hid & Hlbl). exists r. split; [done|].
    rewrite Hpd, HL, Hc. cbn [String.eqb]. rewrite !Ascii.eqb_refl.
    destruct row as [[[id lbl] pd] L]. cbn in *. by subst.
Qed.



Lemma NoDup_fmap_eq {A B} (f : A → B) (l : list A) (x y : A) :
  NoDup (f <$> l) → x ∈ l → y ∈ l → f x = f y → x = y.
Proof.
  induction l as [|a l IH]; csimpl; [by intros _ ?%elem_of_nil|].
  intros [Ha Hnd]%NoDup_cons [-> | Hx]%elem_of_cons [-> | Hy]%elem_of_cons Hf;
    auto.
  - exfalso. apply Ha. rewrite Hf. by apply list_elem_of_fmap_2.
  - exfalso. apply Ha. rewrite <- Hf. by apply list_elem_of_fmap_2.
Qed.

Lemma empty_store_keys_unique : keys_unique empty_store.
Proof. constructor. Qed.

(** [INSERT OR REPLACE] keeps the primary key: the writers never break
    [keys_unique]. *)
Lemma register_item_keys_unique (id lbl cat : string)
    (purchase : option string) (lifespan : option Q)
    (quantity threshold : option Z) (usage : option Q)
    (meta : option string) (s : Store) :
  keys_unique s →
  keys_unique
    (register_item id lbl cat purchase lifespan quantity threshold usage meta s).2.
Proof.
  unfold keys_unique, register_item, with_connection, bind,
    insert_or_replace_item, commit, ret.
  cbn [category item_id]. destruct (check_category cat); [|done].
  cbn [snd items]. intros Hnd. rewrite fmap_app. apply NoDup_app.
  split; [|split].
  - induction (items s) as [|r l IH]; [constructor|].
    csimpl in Hnd. apply NoDup_cons in Hnd as [Hr Hnd].
    rewrite filter_cons. case_decide; [|by apply IH].
    csimpl. apply NoDup_cons. split; [|by apply IH].
    intros (r' & Heq & Hr')%list_elem_of_fmap.
    apply list_elem_of_filter in Hr' as [_ Hr'].
    apply Hr. rewrite Heq. by apply list_elem_of_fmap_2.
  - intros k (r' & -> & Hr')%list_elem_of_fmap.
    apply list_elem_of_filter in Hr' as [Hne _].
    csimpl. by intros Heq%list_elem_of_singleton.
  - apply NoDup_singleton.
Qed.

Lemma record_placement_items (utcnow id zone dtype : string)
    (routine motive : option string) (seen_with : option (list string))
    (timestamp meta : option string) (s : Store) :
  items (record_placement utcnow id zone dtype routine motive seen_with
           timestamp meta s).2 = items s.
Proof.
  destruct (decide (dtype ∈ distribution_types)) as [Hd | Hd].
  - by rewrite record_placement_valid.
  - by rewrite record_placement_invalid.
Qed.

Lemma demo_store_keys_unique : keys_unique demo_store.
Proof. apply (bool_decide_unpack _). vm_compute. exact I. Qed.




(** * Further properties of the ledger *)

(** ** Registration *)

Lemma register_item_valid (id lbl cat : string)
    (purchase : option string) (lifespan : option Q)
    (quantity threshold : option Z) (usage : option Q)
    (meta : option string) (s : Store) :
  cat ∈ categories →
  register_item id lbl cat purchase lifespan quantity threshold usage meta s
  = (Ok tt,
     {| items := filter (fun r' => item_id r' ≠ id) (items s)
                 ++ [item_row_of id lbl cat purchase lifespan quantity
                       threshold usage meta];
        placements := placements s;
        co_presence := co_presence s;
        zones := zones s |}).
Proof.
  intros Hc. apply existsb_eqb_elem_of in Hc.
  unfold register_item, with_connection, bind, insert_or_replace_item,
    commit, ret.
  cbn [category item_id]. unfold check_category. by rewrite Hc.
Qed.

Lemma filter_key_removed (id : string) (l : list item_row) :
  filter (fun r => item_id r = id) (filter (fun r' => item_id r' ≠ id) l) = [].
Proof.
  induction l as [|r l IH]; [done|].
  rewrite (filter_cons (fun r' => item_id r' ≠ id)).
  case_decide; [|done]. by rewrite filter_cons_False.
Qed.

Lemma filter_key_other (id id' : string) (l : list item_row) :
  id' ≠ id →
  filter (fun r => item_id r = id') (filter (fun r' => item_id r' ≠ id) l)
  = filter (fun r => item_id r = id') l.
Proof.
  intros Hne. induction l as [|r l IH]; [done|].
  rewrite (filter_cons (fun r' => item_id r' ≠ id)).
  destruct (decide (item_id r = id')) as [Heq | Hneq].
  - rewrite decide_True by congruence.
    by rewrite !filter_cons_True, IH by done.
  - case_decide.
    + by rewrite !filter_cons_False, IH by done.
    + by rewrite filter_cons_False, IH by done.
Qed.

(** X1. A registration with a valid category succeeds, and the row then
    found under the identity is the row just given, whole: no field of an
    earlier registration survives.  The rows of the other identities and the
    three other tables are as before. *)
Theorem register_item_then_find (id lbl cat : string)
    (purchase : option string) (lifespan : option Q)
    (quantity threshold : option Z) (usage : option Q)
    (meta : option string) (s : Store) :
  cat ∈ categories →
  ∃ s', register_item id lbl cat purchase lifespan quantity threshold usage
          meta s = (Ok tt, s')
        ∧ find_item s' id
          = Some (item_row_of id lbl cat purchase lifespan quantity threshold
                    usage meta)
        ∧ (∀ id', id' ≠ id → find_item s' id' = find_item s id')
        ∧ placements s' = placements s
        ∧ co_presence s' = co_presence s
        ∧ zones s' = zones s.
Proof.
  intros Hc. eexists. split; [by apply register_item_valid|].
  unfold find_item. cbn [items placements co_presence zones].
  split; [|split; [|done]].
  - rewrite filter_app, filter_key_removed. by rewrite filter_cons_True.
  - intros id' Hne. rewrite filter_app, filter_key_other by done.
    rewrite (filter_cons_False _ (item_row_of _ _ _ _ _ _ _ _ _))
      by (cbn; congruence).
    by rewrite app_nil_r.
Qed.

Lemma register_item_then_find_witness :
  ∃ s', register_item "soap" "Bar soap" "disposable" None None None None None
          None demo_store = (Ok tt, s')
        ∧ find_item s' "soap"
          = Some (item_row_of "soap" "Bar soap" "disposable" None None None
                    None None None).
Proof.
  destruct (register_item_then_find "soap" "Bar soap" "disposable" None None
              None None None None demo_store) as (s' & Hrun & Hfind & _).
  - apply (bool_decide_unpack _). vm_compute. exact I.
  - exists s'. split; [exact Hrun | exact Hfind].
Defined.

Lemma register_zone_keys (id name descr : string) (s : Store) :
  zone_keys_unique s → zone_keys_unique (register_zone id name descr s).2.
Proof.
  unfold zone_keys_unique. cbn. intros Hnd. rewrite fmap_app.
  apply NoDup_app. split; [|split].
  - induction (zones s) as [|z l IH]; [constructor|].
    csimpl in Hnd. apply NoDup_cons in Hnd as [Hz Hnd].
    rewrite filter_cons. case_decide; [|by apply IH].
    csimpl. apply NoDup_cons. split; [|by apply IH].
    intros (z' & Heq & Hz')%list_elem_of_fmap.
    apply list_elem_of_filter in Hz' as [_ Hz'].
    apply Hz. rewrite Heq. by apply list_elem_of_fmap_2.
  - intros k (z' & -> & Hz')%list_elem_of_fmap.
    apply list_elem_of_filter in Hz' as [Hne _].
    csimpl. by intros Heq%list_elem_of_singleton.
  - apply NoDup_singleton.
Qed.

(** X2. The three writers keep both primary keys: from a store in which no
    two item rows share an identity and no two zone rows share a zone
    identity, each of them leads to such a store again, whether it succeeds
    or is rejected. *)
Theorem writers_keep_primary_keys (s : Store) :
  keys_unique s → zone_keys_unique s →
  (∀ (id lbl cat : string) (purchase : option string) (lifespan : option Q)
     (quantity threshold : option Z) (usage : option Q) (meta : option string),
      let s' := (register_item id lbl cat purchase lifespan quantity
                   threshold usage meta s).2 in
      keys_unique s' ∧ zone_keys_unique s')
  ∧ (∀ (utcnow id zone dtype : string) (routine motive : option string)
       (seen_with : option (list string)) (timestamp meta : option string),
      let s' := (record_placement utcnow id zone dtype routine motive
                   seen_with timestamp meta s).2 in
      keys_unique s' ∧ zone_keys_unique s')
  ∧ (∀ (id name descr : string),
      let s' := (register_zone id name descr s).2 in
      keys_unique s' ∧ zone_keys_unique s').
Proof.
  intros Hk Hz. split; [|split].
  - intros. split; [by apply register_item_keys_unique|].
    subst s'. unfold zone_keys_unique, register_item, with_connection, bind,
      insert_or_replace_item, commit, ret.
    cbn [category]. by destruct (check_category cat).
  - intros. subst s'. unfold keys_unique, zone_keys_unique.
    rewrite record_placement_items.
    destruct (decide (dtype ∈ distribution_types)) as [Hd | Hd].
    + by rewrite record_placement_valid.
    + by rewrite record_placement_invalid.
  - intros. split; [done|]. by apply register_zone_keys.
Qed.

Lemma writers_keep_primary_keys_witness :
  keys_unique (register_item "mug" "Mug" "disposable" None None None None
                 None None demo_store).2.
Proof.
  apply (proj1 (writers_keep_primary_keys demo_store demo_store_keys_unique
                  ltac:(constructor))).
Defined.

(** X3. The ledger is append-only: after any writer, accepted or rejected,
    the [placements] table and the [co_presence] table each start with the
    rows they held before, in the same order.  No placement or co-presence
    row is ever changed or removed. *)
Theorem ledger_append_only (s : Store) :
  (∀ (id lbl cat : string) (purchase : option string) (lifespan : option Q)
     (quantity threshold : option Z) (usage : option Q) (meta : option string),
      let s' := (register_item id lbl cat purchase lifespan quantity
                   threshold usage meta s).2 in
      placements s `prefix_of` placements s'
      ∧ co_presence s `prefix_of` co_presence s')
  ∧ (∀ (utcnow id zone dtype : string) (routine motive : option string)
       (seen_with : option (list string)) (timestamp meta : option string),
      let s' := (record_placement utcnow id zone dtype routine motive
                   seen_with timestamp meta s).2 in
      placements s `prefix_of` placements s'
      ∧ co_presence s `prefix_of` co_presence s')
  ∧ (∀ (id name descr : string),
      let s' := (register_zone id name descr s).2 in
      placements s `prefix_of` placements s'
      ∧ co_presence s `prefix_of` co_presence s').
Proof.
  split; [|split].
  - intros. subst s'. unfold register_item, with_connection, bind,
      insert_or_replace_item, commit, ret.
    cbn [category]. by destruct (check_category cat).
  - intros. subst s'.
    destruct (decide (dtype ∈ distribution_types)) as [Hd | Hd].
    + rewrite record_placement_valid by done. cbn.
      split; by eexists.
    + by rewrite record_placement_invalid.
  - intros. by subst s'.
Qed.

(** ** Symmetry of the co-presence table *)

Lemma elem_of_edge_pairs (id zone ts : string) (others : list string)
    (c : co_row) :
  c ∈ edge_pairs id zone ts others ↔
  ∃ x, x ∈ others
       ∧ (c = {| item_a := id; item_b := x; c_zone := zone; c_timestamp := ts |}
          ∨ c = {| item_a := x; item_b := id; c_zone := zone;
                   c_timestamp := ts |}).
Proof.
  unfold edge_pairs, edge_pair. rewrite list_elem_of_bind.
  split; intros (x & H1 & H2).
  - exists x. split; [done|].
    rewrite elem_of_cons, list_elem_of_singleton in H1. done.
  - exists x. split; [|done].
    rewrite elem_of_cons, list_elem_of_singleton. done.
Qed.

Lemma record_placement_co_symmetric (utcnow id zone dtype : string)
    (routine motive : option string) (seen_with : option (list string))
    (timestamp meta : option string) (s : Store) :
  co_symmetric s →
  co_symmetric (record_placement utcnow id zone dtype routine motive
                  seen_with timestamp meta s).2.
Proof.
  intros Hs.
  destruct (decide (dtype ∈ distribution_types)) as [Hd | Hd];
    [|by rewrite record_placement_invalid].
  rewrite record_placement_valid by done.
  intros c. cbn [snd appended co_presence]. rewrite !elem_of_app.
  intros [Hc | Hc]; [left; by apply Hs|right].
  apply elem_of_edge_pairs in Hc as (x & Hx & [-> | ->]);
    apply elem_of_edge_pairs; exists x; (split; [done|]); cbn; auto.
Qed.

Lemma elem_of_recent_neighbors_unbounded (s : Store) (id : string)
    (limit : Z) (n : neighbor) :
  (limit < 0)%Z →
  n ∈ recent_neighbors s id limit ↔
  ∃ c i, c ∈ co_presence s ∧ i ∈ items s
         ∧ item_a c = id ∧ item_b c = item_id i
         ∧ n = {| n_item_id := item_b c; n_label := label i;
                  n_zone := c_zone c; n_timestamp := c_timestamp c |}.
Proof.
  intros Hneg. split; [apply elem_of_recent_neighbors|].
  intros (c & i & Hc & Hi & Ha & Hb & ->).
  unfold recent_neighbors, sql_limit.
  rewrite (proj2 (Z.ltb_lt limit 0) Hneg).
  apply (list_elem_of_fmap_2' neighbor_of _
           (item_b c, label i, c_zone c, c_timestamp c)); [|done].
  rewrite elem_of_order_by_desc, elem_of_remove_dups, elem_of_neighbor_rows.
  by exists c, i.
Qed.

(** X4. The co-presence table is symmetric in every store the writers can
    reach: the empty store holds the mirror row of each of its rows, and
    [register_item], [record_placement] and [register_zone], accepted or
    rejected, keep that property. *)
Theorem writers_keep_co_presence_symmetric :
  co_symmetric empty_store
  ∧ ∀ s, co_symmetric s →
      (∀ (id lbl cat : string) (purchase : option string)
         (lifespan : option Q) (quantity threshold : option Z)
         (usage : option Q) (meta : option string),
          co_symmetric (register_item id lbl cat purchase lifespan quantity
                          threshold usage meta s).2)
      ∧ (∀ (utcnow id zone dtype : string) (routine motive : option string)
           (seen_with : option (list string)) (timestamp meta : option string),
          co_symmetric (record_placement utcnow id zone dtype routine motive
                          seen_with timestamp meta s).2)
      ∧ (∀ (id name descr : string),
          co_symmetric (register_zone id name descr s).2).
Proof.
  split; [by intros c Hc%elem_of_nil|].
  intros s Hs. split; [|split].
  - intros. unfold co_symmetric. by rewrite register_item_co_presence.
  - intros. by apply record_placement_co_symmetric.
  - intros. unfold co_symmetric. by rewrite register_zone_co_presence.
Qed.

Lemma writers_keep_co_presence_symmetric_witness :
  co_symmetric (record_placement "2024-01-01T08:00:00" "towel" "bathroom"
                  "placed" None None (Some ["soap"]) None None empty_store).2.
Proof.
  apply (proj2 writers_keep_co_presence_symmetric empty_store).
  intros c Hc. vm_compute in Hc. inversion Hc.
Defined.

Lemma demo_store_co_symmetric : co_symmetric demo_store.
Proof.
  unfold demo_store. do 2 apply record_placement_co_symmetric.
  unfold co_symmetric. rewrite !register_item_co_presence.
  by intros c Hc%elem_of_nil.
Qed.

(** X5. In a store with a symmetric co-presence table, being a neighbour is
    mutual: when [recent_neighbors] of item [a] lists a row for [b], then
    [recent_neighbors] of [b], asked without a bound, lists a row for every
    registered [a] with the same zone and timestamp. *)
Theorem recent_neighbors_mutual (s : Store) (a : string) (limit limit' : Z)
    (n : neighbor) (ia : item_row) :
  co_symmetric s →
  (limit' < 0)%Z →
  ia ∈ items s → item_id ia = a →
  n ∈ recent_neighbors s a limit →
  {| n_item_id := a; n_label := label ia;
     n_zone := n_zone n; n_timestamp := n_timestamp n |}
  ∈ recent_neighbors s (n_item_id n) limit'.
Proof.
  intros Hs Hneg Hia Ha Hn.
  apply elem_of_recent_neighbors in Hn as (c & i & Hc & Hi & Hca & Hcb & ->).
  apply elem_of_recent_neighbors_unbounded; [done|].
  eexists _, ia. split; [exact (Hs c Hc)|]. cbn.
  repeat split; try done; congruence.
Qed.

Lemma recent_neighbors_mutual_witness :
  {| n_item_id := "towel"; n_label := "Bath towel";
     n_zone := "hall"; n_timestamp := "2024-01-02T08:00:00" |}
  ∈ recent_neighbors demo_store "soap" (-1).
Proof.
  apply (recent_neighbors_mutual demo_store "towel" 1 (-1)
           {| n_item_id := "soap"; n_label := "Hand soap"; n_zone := "hall";
              n_timestamp := "2024-01-02T08:00:00" |}
           {| item_id := "towel"; label := "Bath towel";
              category := "good_stuff"; purchase_date := Some "2020-01-01";
              expected_lifespan_years := Some 5%Q; current_quantity := None;
              refill_threshold := None; usage_rate_per_day := None;
              metadata := "{}" |}).
  - exact demo_store_co_symmetric.
  - lia.
  - vm_compute. apply list_elem_of_In. simpl. auto.
  - reflexivity.
  - vm_compute. apply list_elem_of_In. simpl. auto.
Defined.

(** X6. Recording a valid placement of a registered item [a] seen with a
    registered item [x] makes them neighbours of each other at once:
    [recent_neighbors] of [a], asked without a bound, has the row of [x] with
    the placement's zone and timestamp, and [recent_neighbors] of [x] has
    the row of [a] with the same zone and timestamp. *)
Theorem record_placement_then_neighbors (utcnow a zone dtype : string)
    (routine motive : option string) (others : list string)
    (timestamp meta : option string) (s : Store) (x : string)
    (ia ix : item_row) (limit : Z) :
  dtype ∈ distribution_types →
  x ∈ others →
  ia ∈ items s → item_id ia = a →
  ix ∈ items s → item_id ix = x →
  (limit < 0)%Z →
  let s' := (record_placement utcnow a zone dtype routine motive
               (Some others) timestamp meta s).2 in
  {| n_item_id := x; n_label := label ix; n_zone := zone;
     n_timestamp := default utcnow timestamp |} ∈ recent_neighbors s' a limit
  ∧ {| n_item_id := a; n_label := label ia; n_zone := zone;
       n_timestamp := default utcnow timestamp |}
    ∈ recent_neighbors s' x limit.
Proof.
  intros Hd Hx Hia Ha Hix Hxid Hneg s'. subst s'.
  rewrite record_placement_valid by done. cbn [snd default].
  split; apply elem_of_recent_neighbors_unbounded; try done.
  - exists {| item_a := a; item_b := x; c_zone := zone;
              c_timestamp := default utcnow timestamp |}, ix.
    cbn. split; [|done].
    apply elem_of_app. right. apply elem_of_edge_pairs. exists x. auto.
  - exists {| item_a := x; item_b := a; c_zone := zone;
              c_timestamp := default utcnow timestamp |}, ia.
    cbn. split; [|done].
    apply elem_of_app. right. apply elem_of_edge_pairs. exists x. auto.
Qed.

Lemma record_placement_then_neighbors_witness :
  {| n_item_id := "towel"; n_label := "Bath towel"; n_zone := "kitchen";
     n_timestamp := "2024-02-01T08:00:00" |}
  ∈ recent_neighbors
      (record_placement "2024-02-01T08:00:00" "soap" "kitchen" "spread"
         None None (Some ["towel"]) None None demo_store).2 "soap" (-1)
  ∧ {| n_item_id := "soap"; n_label := "Hand soap"; n_zone := "kitchen";
       n_timestamp := "2024-02-01T08:00:00" |}
    ∈ recent_neighbors
        (record_placement "2024-02-01T08:00:00" "soap" "kitchen" "spread"
           None None (Some ["towel"]) None None demo_store).2 "towel" (-1).
Proof.
  apply (record_placement_then_neighbors "2024-02-01T08:00:00" "soap"
           "kitchen" "spread" None None ["towel"] None None demo_store "towel"
           {| item_id := "soap"; label := "Hand soap";
              category := "refillable"; purchase_date := None;
              expected_lifespan_years := None; current_quantity := Some 0%Z;
              refill_threshold := Some 2%Z; usage_rate_per_day := Some 1%Q;
              metadata := "{}" |}
           {| item_id := "towel"; label := "Bath towel";
              category := "good_stuff"; purchase_date := Some "2020-01-01";
              expected_lifespan_years := Some 5%Q; current_quantity := None;
              refill_threshold := None; usage_rate_per_day := None;
              metadata := "{}" |}).
  - apply (bool_decide_unpack _). vm_compute. exact I.
  - apply (bool_decide_unpack _). vm_compute. exact I.
  - vm_compute. apply list_elem_of_In. simpl. auto.
  - reflexivity.
  - vm_compute. apply list_elem_of_In. simpl. auto.
  - reflexivity.
  - lia.
Defined.


(** ** The status of an item *)

Lemma find_item_Some (s : Store) (id : string) (item : item_row) :
  find_item s id = Some item → item ∈ items s ∧ item_id item = id.
Proof.
  unfold find_item. intros H.
  assert (Hin : item ∈ filter (fun r => item_id r = id) (items s)).
  { destruct (filter _ (items s)) as [|x l]; [done|].
    injection H as ->. apply elem_of_cons. by left. }
  apply list_elem_of_filter in Hin. by destruct Hin.
Qed.

Lemma find_item_None (s : Store) (id : string) :
  find_item s id = None ↔ ¬ registered s id.
Proof.
  unfold find_item, registered. split.
  - intros H (i & Hi & Hid).
    assert (Hin : i ∈ filter (fun r => item_id r = id) (items s))
      by (by apply list_elem_of_filter).
    destruct (filter _ (items s)); [by apply elem_of_nil in Hin|done].
  - intros H. destruct (filter _ (items s)) as [|x l] eqn:E; [done|].
    exfalso. apply H. exists x.
    assert (Hin : x ∈ filter (fun r => item_id r = id) (items s))
      by (rewrite E; apply elem_of_cons; by left).
    apply list_elem_of_filter in Hin. by destruct Hin.
Qed.

Lemma find_item_unique (s : Store) (item : item_row) :
  keys_unique s → item ∈ items s → find_item s (item_id item) = Some item.
Proof.
  intros Hk Hin. destruct (find_item s (item_id item)) as [item'|] eqn:E.
  - apply find_item_Some in E as [Hin' Hid].
    f_equal. by apply (NoDup_fmap_eq item_id (items s)).
  - apply find_item_None in E. exfalso. apply E. by exists item.
Qed.

Lemma good_stuff_dates_Some (item : item_row) (p : string) (l : Q) :
  good_stuff_dates item = Some (p, l) ↔
  category item = "good_stuff" ∧ purchase_date item = Some p ∧ p ≠ ""
  ∧ expected_lifespan_years item = Some l ∧ ¬ (l == 0)%Q.
Proof.
  unfold good_stuff_dates, truthy_text, truthy_real.
  destruct (purchase_date item) as [p'|], (expected_lifespan_years item)
    as [l'|]; try (split; [done|by intros (_ & ? & _ & ? & _)]).
  destruct (String.eqb_spec (category item) "good_stuff") as [Hc | Hc];
    destruct (String.eqb_spec p' "") as [Hp | Hp];
    destruct (Qeq_bool l' 0) eqn:Hl; cbn [andb negb];
    try (split; [done|]).
  all: try (intros (? & [= ->] & ? & [= ->] & Hne); try done;
            apply Qeq_bool_iff in Hl; done).
  split.
  - intros [= -> ->]. repeat split; try done.
    intros H. apply Qeq_bool_iff in H. congruence.
  - by intros (_ & [= ->] & _ & [= ->] & _).
Qed.

Lemma lifecycle_of_parsed (age_days : string → age_result) (p : string)
    (l : Q) (d : Z) :
  ¬ (l == 0)%Q → age_days p = Days d →
  lifecycle_of age_days p l
  = Ok {| lc_purchase_date := p;
          lc_age_years := round1 (inject_Z d / 365.25);
          lc_expected_lifespan_years := l;
          lc_remaining_years := round1 (max0 (l - inject_Z d / 365.25));
          lc_health_percent :=
            round1 (nearest_double (max0 (l - inject_Z d / 365.25) / l)
                    * 100) |}.
Proof.
  intros Hl Hd. unfold lifecycle_of, age_years, truediv. rewrite Hd.
  cbn [mbind result_bind]. by rewrite Qeq_bool_false.
Qed.

Lemma age_error_kinds (a : age_result) (e : error) :
  age_error a = Some e ↔
  (a = Malformed ∧ e = ValueError) ∨ (a = OffsetAware ∧ e = TypeError).
Proof.
  destruct a; cbn; split; try (intros [= <-]; auto);
    intros [[? ->] | [? ->]]; done.
Qed.

Lemma lifecycle_of_failed (age_days : string → age_result) (p : string)
    (l : Q) (e : error) :
  age_error (age_days p) = Some e → lifecycle_of age_days p l = Raise e.
Proof.
  intros Hd. unfold lifecycle_of, age_years.
  destruct (age_days p); cbn in Hd; by simplify_eq.
Qed.

(** What [item_status] does with a row it found, branch by branch. *)
Lemma item_status_cases (age_days : string → age_result) (s : Store)
    (id : string) (item : item_row) :
  find_item s id = Some item →
  let placement := head (select_placements s id 1) in
  match good_stuff_dates item with
  | Some (p, l) =>
      match age_days p with
      | Days d =>
          ∃ lc, lifecycle_of age_days p l = Ok lc
                ∧ item_status age_days s id
                  = Ok (Some (status_with id item (Some lc) None placement))
      | Malformed => item_status age_days s id = Raise ValueError
      | OffsetAware => item_status age_days s id = Raise TypeError
      end
  | None =>
      if String.eqb (category item) "refillable"
      then ∃ rs, refill_status_of item = Ok rs
                 ∧ item_status age_days s id
                   = Ok (Some (status_with id item None (Some rs) placement))
      else item_status age_days s id
           = Ok (Some (status_with id item None None placement))
  end.
Proof.
  intros Hfind placement. unfold item_status. rewrite Hfind.
  destruct (good_stuff_dates item) as [[p l]|] eqn:Hg.
  - apply good_stuff_dates_Some in Hg as (_ & _ & _ & _ & Hl).
    destruct (age_days p) as [d| |] eqn:Hd.
    + rewrite (lifecycle_of_parsed age_days p l d Hl Hd).
      eexists. split; reflexivity.
    + by rewrite (lifecycle_of_failed age_days p l ValueError)
        by (by rewrite Hd).
    + by rewrite (lifecycle_of_failed age_days p l TypeError)
        by (by rewrite Hd).
  - destruct (String.eqb (category item) "refillable").
    + rewrite refill_status_of_Ok. eexists. split; reflexivity.
    + reflexivity.
Qed.

Lemma item_status_Ok_None (age_days : string → age_result)
    (s : Store) (id : string) :
  item_status age_days s id = Ok None ↔ ¬ registered s id.
Proof.
  rewrite <- find_item_None. split.
  - intros H. destruct (find_item s id) as [item|] eqn:Hfind; [|done].
    exfalso. pose proof (item_status_cases age_days s id item Hfind) as Hc.
    cbn zeta in Hc.
    destruct (good_stuff_dates item) as [[p l]|].
    + destruct (age_days p); [destruct Hc as (? & _ & Hc)| |]; congruence.
    + destruct (String.eqb (category item) "refillable");
        [destruct Hc as (? & _ & Hc)|]; congruence.
  - intros H. unfold item_status. by rewrite H.
Qed.

(** X7. [item_status] answers [None] exactly for an identity that has no
    row in [items]; for a registered identity it returns a status or raises,
    whatever the ledger holds about placements. *)
Theorem item_status_none_iff_unregistered (age_days : string → age_result)
    (s : Store) (id : string) :
  item_status age_days s id = Ok None ↔ ¬ registered s id.
Proof.
  apply item_status_Ok_None.
Qed.

Lemma item_status_none_iff_unregistered_witness :
  item_status demo_clock demo_store "mug" = Ok None.
Proof.
  apply (proj2 (item_status_none_iff_unregistered demo_clock demo_store
                  "mug")).
  intros (i & Hi & Hid). revert Hid. revert i Hi.
  apply (Forall_forall (fun i => item_id i = "mug" → False)).
  vm_compute. repeat (constructor; [discriminate|]). constructor.
Defined.

Lemma item_status_Raise
    (age_days : string → age_result) (s : Store) (id : string) (e : error) :
  item_status age_days s id = Raise e ↔
  ∃ item p l, find_item s id = Some item
              ∧ category item = "good_stuff"
              ∧ purchase_date item = Some p ∧ p ≠ ""
              ∧ expected_lifespan_years item = Some l ∧ ¬ (l == 0)%Q
              ∧ age_error (age_days p) = Some e.
Proof.
  split.
  - intros H. destruct (find_item s id) as [item|] eqn:Hfind;
      [|unfold item_status in H; by rewrite Hfind in H].
    pose proof (item_status_cases age_days s id item Hfind) as Hc.
    cbn zeta in Hc.
    destruct (good_stuff_dates item) as [[p l]|] eqn:Hg.
    + apply good_stuff_dates_Some in Hg as (? & ? & ? & ? & ?).
      exists item, p, l. repeat (split; [done|]).
      destruct (age_days p) eqn:Hd; cbn;
        [destruct Hc as (? & _ & Hc)| |]; congruence.
    + destruct (String.eqb (category item) "refillable");
        [destruct Hc as (? & _ & Hc)|]; congruence.
  - intros (item & p & l & Hfind & Hcat & Hp & Hne & Hl & Hl0 & Hd).
    pose proof (item_status_cases age_days s id item Hfind) as Hc.
    cbn zeta in Hc.
    rewrite (proj2 (good_stuff_dates_Some item p l)) in Hc by done.
    destruct (age_days p); cbn in Hd; by simplify_eq.
Qed.

(** X8. The only errors of [item_status] are those of the age computation.
    The call raises exactly when the row found is a [good_stuff] item with a
    non-empty purchase date and a lifespan that is set and not zero, and the
    age of that date cannot be computed: a ValueError when [fromisoformat]
    rejects the date, a TypeError when the date carries a UTC offset.  No
    item makes the call divide by zero, and a bad date is harmless on every
    other row. *)
Theorem item_status_raises_only_on_date_errors
    (age_days : string → age_result) (s : Store) (id : string) (e : error) :
  (item_status age_days s id = Raise e ↔
   ∃ item p l, find_item s id = Some item
               ∧ category item = "good_stuff"
               ∧ purchase_date item = Some p ∧ p ≠ ""
               ∧ expected_lifespan_years item = Some l ∧ ¬ (l == 0)%Q
               ∧ ((age_days p = Malformed ∧ e = ValueError)
                  ∨ (age_days p = OffsetAware ∧ e = TypeError)))
  ∧ item_status age_days s id ≠ Raise ZeroDivisionError
  ∧ item_status age_days s id ≠ Raise IntegrityError.
Proof.
  split; [|split].
  - rewrite item_status_Raise. split.
    + intros (item & p & l & ? & ? & ? & ? & ? & ? & Hk%age_error_kinds).
      by exists item, p, l.
    + intros (item & p & l & ? & ? & ? & ? & ? & ? & Hk%age_error_kinds).
      by exists item, p, l.
  - intros H. apply item_status_Raise in H
      as (item & p & l & _ & _ & _ & _ & _ & _ & Hk).
    by destruct (age_days p).
  - intros H. apply item_status_Raise in H
      as (item & p & l & _ & _ & _ & _ & _ & _ & Hk).
    by destruct (age_days p).
Qed.

Lemma item_status_raises_only_on_date_errors_witness :
  item_status (fun _ => OffsetAware) demo_store "towel" = Raise TypeError.
Proof.
  apply (proj2 (proj1 (item_status_raises_only_on_date_errors
                         (fun _ => OffsetAware) demo_store "towel"
                         TypeError))).
  exists {| item_id := "towel"; label := "Bath towel";
            category := "good_stuff"; purchase_date := Some "2020-01-01";
            expected_lifespan_years := Some 5%Q; current_quantity := None;
            refill_threshold := None; usage_rate_per_day := None;
            metadata := "{}" |}, "2020-01-01", 5%Q.
  split; [vm_compute; reflexivity|].
  repeat split; try reflexivity; try discriminate.
  right. split; reflexivity.
Defined.

Lemma head_order_by_desc {A} (key : A → string) (l : list A) (x : A) :
  head (order_by_desc key l) = Some x →
  x ∈ l ∧ ∀ y, y ∈ l → ts_le (key y) (key x).
Proof.
  intros H. pose proof (order_by_desc_sorted key l) as Hs.
  assert (Hel : ∀ y, y ∈ l ↔ y ∈ order_by_desc key l)
    by (intros y; by rewrite elem_of_order_by_desc).
  destruct (order_by_desc key l) as [|x' l']; [done|].
  injection H as ->. apply StronglySorted_inv in Hs as [_ Hall].
  split; [apply Hel, elem_of_cons; by left|].
  intros y Hy. apply Hel, elem_of_cons in Hy as [-> | Hy];
    [apply ts_le_refl|].
  rewrite Forall_forall in Hall. by apply Hall.
Qed.

Lemma head_select_placements (s : Store) (id : string) :
  head (select_placements s id 1)
  = head (order_by_desc p_timestamp
            (filter (fun p => p_item_id p = id) (placements s))).
Proof.
  unfold select_placements, sql_limit. cbn.
  by destruct (order_by_desc _ _).
Qed.

Lemma item_status_Some (age_days : string → age_result) (s : Store)
    (id : string) (st : status) :
  item_status age_days s id = Ok (Some st) →
  ∃ item lc rs, find_item s id = Some item
                ∧ st = status_with id item lc rs
                         (head (select_placements s id 1)).
Proof.
  intros H. destruct (find_item s id) as [item|] eqn:Hfind;
    [|unfold item_status in H; by rewrite Hfind in H].
  pose proof (item_status_cases age_days s id item Hfind) as Hc.
  cbn zeta in Hc. exists item.
  destruct (good_stuff_dates item) as [[p l]|].
  - destruct (age_days p); [destruct Hc as (lc & _ & Hc)| |];
      [|congruence..].
    exists (Some lc), None. split; congruence.
  - destruct (String.eqb (category item) "refillable").
    + destruct Hc as (rs & _ & Hc). exists None, (Some rs).
      split; congruence.
    + exists None, None. split; congruence.
Qed.

(** X9. The [current_placement] of a status is absent exactly when the
    ledger has no placement of the item.  When present it is a placement of
    that item, and no placement of the item has a later timestamp. *)
Theorem item_status_current_placement (age_days : string → age_result)
    (s : Store) (id : string) (st : status) :
  item_status age_days s id = Ok (Some st) →
  (current_placement st = None ↔
   ∀ p, p ∈ placements s → p_item_id p ≠ id)
  ∧ (∀ v, current_placement st = Some v →
          ∃ p, p ∈ placements s ∧ p_item_id p = id
               ∧ v = placement_view_of p
               ∧ ∀ p', p' ∈ placements s → p_item_id p' = id →
                       ts_le (p_timestamp p') (p_timestamp p)).
Proof.
  intros H. apply item_status_Some in H as (item & lc & rs & _ & ->).
  cbn [status_with current_placement]. rewrite head_select_placements.
  split.
  - rewrite fmap_None. rewrite head_None. split.
    + intros Hnil p Hp Hid.
      assert (Hin : p ∈ order_by_desc p_timestamp
                (filter (fun p => p_item_id p = id) (placements s)))
        by (rewrite elem_of_order_by_desc; by apply list_elem_of_filter).
      rewrite Hnil in Hin. by apply elem_of_nil in Hin.
    + intros Hno.
      destruct (order_by_desc _ _) as [|p l] eqn:E; [done|].
      assert (Hin : p ∈ order_by_desc p_timestamp
                (filter (fun p => p_item_id p = id) (placements s)))
        by (rewrite E; apply elem_of_cons; by left).
      rewrite elem_of_order_by_desc in Hin.
      apply list_elem_of_filter in Hin as [Hid Hin]. by apply Hno in Hin.
  - intros v Hv. apply fmap_Some in Hv as (p & Hhead & ->).
    apply head_order_by_desc in Hhead as [Hin Hmax].
    apply list_elem_of_filter in Hin as [Hid Hin].
    exists p. repeat split; try done.
    intros p' Hp' Hid'. apply Hmax. by apply list_elem_of_filter.
Qed.

Lemma item_status_current_placement_witness :
  ∃ st, item_status demo_clock demo_store "soap" = Ok (Some st)
        ∧ (current_placement st = None ↔
           ∀ p, p ∈ placements demo_store → p_item_id p ≠ "soap").
Proof.
  eexists. split; [vm_compute; reflexivity|].
  apply (item_status_current_placement demo_clock demo_store "soap").
  vm_compute. reflexivity.
Defined.

Lemma max0_nonneg (x : Q) : (0 <= max0 x)%Q.
Proof.
  unfold max0. destruct (Qgtb x 0) eqn:E; [|lra].
  apply Qgtb_true in E. lra.
Qed.

Lemma max0_floor (x : Q) : (x <= 0)%Q → max0 x = 0%Q.
Proof.
  intros Hx. unfold max0. destruct (Qgtb x 0) eqn:E; [|done].
  apply Qgtb_true in E. lra.
Qed.

Lemma item_status_lifecycle (age_days : string → age_result) (s : Store)
    (id : string) (st : status) (lc : lifecycle_info) :
  item_status age_days s id = Ok (Some st) → lifecycle st = Some lc →
  ∃ item p l d, find_item s id = Some item
                ∧ good_stuff_dates item = Some (p, l)
                ∧ age_days p = Days d
                ∧ lifecycle_of age_days p l = Ok lc.
Proof.
  intros H Hlc. destruct (find_item s id) as [item|] eqn:Hfind;
    [|unfold item_status in H; by rewrite Hfind in H].
  pose proof (item_status_cases age_days s id item Hfind) as Hc.
  cbn zeta in Hc. exists item.
  destruct (good_stuff_dates item) as [[p l]|].
  - destruct (age_days p) as [d| |] eqn:Hd; [|congruence..].
    destruct Hc as (lc' & Hof & Hc). exists p, l, d.
    rewrite Hc in H. injection H as <-. cbn in Hlc. by injection Hlc as <-.
  - exfalso. destruct (String.eqb (category item) "refillable").
    + destruct Hc as (rs & _ & Hc). rewrite Hc in H. injection H as <-.
      done.
    + rewrite Hc in H. injection H as <-. done.
Qed.

(** X10. The lifecycle figures of a status are floored at zero.  The
    remaining years are never negative, and neither is the health percent
    when the expected lifespan is positive; for an item whose age has
    reached its expected lifespan both are exactly zero. *)
Theorem lifecycle_floored_at_zero (age_days : string → age_result)
    (s : Store) (id : string) (st : status) (lc : lifecycle_info) :
  item_status age_days s id = Ok (Some st) → lifecycle st = Some lc →
  (0 <= lc_remaining_years lc)%Q
  ∧ ((0 < lc_expected_lifespan_years lc)%Q → (0 <= lc_health_percent lc)%Q)
  ∧ (∀ d, age_days (lc_purchase_date lc) = Days d →
          (lc_expected_lifespan_years lc <= inject_Z d / 365.25)%Q →
          (lc_remaining_years lc == 0)%Q ∧ (lc_health_percent lc == 0)%Q).
Proof.
  intros H Hlc.
  destruct (item_status_lifecycle age_days s id st lc H Hlc)
    as (item & p & l & d & _ & Hg & Hd & Hof).
  apply good_stuff_dates_Some in Hg as (_ & _ & _ & _ & Hl).
  rewrite (lifecycle_of_parsed age_days p l d Hl Hd) in Hof.
  injection Hof as <-. cbn.
  pose proof (max0_nonneg (l - inject_Z d / 365.25)) as Hm.
  split; [|split].
  - by apply round1_nonneg.
  - intros Hpos. apply round1_nonneg.
    assert (Hq : (0 <= nearest_double
                         (max0 (l - inject_Z d / 365.25) / l))%Q).
    { apply nearest_double_nonneg. apply Qle_shift_div_l; [done|]. lra. }
    lra.
  - intros d' Hd' Hpast. rewrite Hd in Hd'. injection Hd' as <-.
    rewrite max0_floor by lra. split; apply round1_zero; [reflexivity|].
    rewrite nearest_double_zero by (unfold Qdiv; ring). ring.
Qed.

Lemma lifecycle_floored_at_zero_witness :
  ∃ st lc, item_status (fun _ => Days 2000) demo_store "towel" = Ok (Some st)
           ∧ lifecycle st = Some lc
           ∧ (lc_remaining_years lc == 0)%Q ∧ (lc_health_percent lc == 0)%Q.
Proof.
  eexists _, _. split; [vm_compute; reflexivity|].
  split; [reflexivity|].
  eapply (lifecycle_floored_at_zero (fun _ => Days 2000) demo_store "towel").
  - vm_compute. reflexivity.
  - reflexivity.
  - reflexivity.
  - vm_compute. discriminate.
Defined.

Lemma find_item_upsert (row : item_row) (s : Store) :
  find_item
    {| items := filter (fun r' => item_id r' ≠ item_id row) (items s) ++ [row];
       placements := placements s; co_presence := co_presence s;
       zones := zones s |} (item_id row)
  = Some row.
Proof.
  unfold find_item. cbn [items].
  rewrite filter_app, filter_key_removed. by rewrite filter_cons_True.
Qed.

Lemma order_by_desc_nil {A} (key : A → string) :
  order_by_desc key [] = [].
Proof. apply Permutation_nil_r. by rewrite order_by_desc_perm. Qed.

Lemma filter_none {A} (P : A → Prop) `{∀ x, Decision (P x)} (l : list A) :
  (∀ x, x ∈ l → ¬ P x) → filter P l = [].
Proof.
  induction l as [|x l IH]; [done|]. intros Hno.
  rewrite filter_cons_False by (apply Hno, elem_of_cons; by left).
  apply IH. intros y Hy. apply Hno, elem_of_cons. by right.
Qed.

(** X11. Right after a valid registration of an item that has no placement
    in the ledger, and whose purchase date, if one was given, parses to a
    date whose age can be computed, [item_status] returns a status with the identity, label, category and
    metadata just registered and no [current_placement]. *)
Theorem item_status_after_registration (age_days : string → age_result)
    (id lbl cat : string) (purchase : option string) (lifespan : option Q)
    (quantity threshold : option Z) (usage : option Q)
    (meta : option string) (s : Store) :
  cat ∈ categories →
  (∀ p, p ∈ placements s → p_item_id p ≠ id) →
  (∀ p, purchase = Some p → ∃ d, age_days p = Days d) →
  ∃ st, item_status age_days
          (register_item id lbl cat purchase lifespan quantity threshold
             usage meta s).2 id = Ok (Some st)
        ∧ st_item_id st = id ∧ st_label st = lbl ∧ st_category st = cat
        ∧ st_metadata st = dumps_or_empty meta
        ∧ current_placement st = None.
Proof.
  intros Hc Hno Hparse. rewrite register_item_valid by done. cbn [snd].
  set (row := item_row_of id lbl cat purchase lifespan quantity threshold
                usage meta).
  set (s' := Build_Store _ _ _ _).
  assert (Hfind : find_item s' id = Some row) by apply (find_item_upsert row).
  assert (Hnone : head (select_placements s' id 1) = None).
  { rewrite head_select_placements. cbn [s' placements].
    replace (filter (fun p => p_item_id p = id) (placements s)) with
      (@nil placement_row); [by rewrite order_by_desc_nil|].
    symmetry. by apply filter_none. }
  pose proof (item_status_cases age_days s' id row Hfind) as Hcases.
  cbn zeta in Hcases. rewrite Hnone in Hcases.
  destruct (good_stuff_dates row) as [[p l]|] eqn:Hg.
  - apply good_stuff_dates_Some in Hg as (_ & Hp & _).
    destruct (Hparse p Hp) as [d Hd]. rewrite Hd in Hcases.
    destruct Hcases as (lc & _ & ->). by eexists.
  - destruct (String.eqb (category row) "refillable").
    + destruct Hcases as (rs & _ & ->). by eexists.
    + rewrite Hcases. by eexists.
Qed.

Lemma item_status_after_registration_witness :
  ∃ st, item_status demo_clock
          (register_item "mug" "Mug" "disposable" None None None None None
             None demo_store).2 "mug" = Ok (Some st)
        ∧ st_item_id st = "mug" ∧ st_label st = "Mug"
        ∧ st_category st = "disposable" ∧ st_metadata st = "{}"
        ∧ current_placement st = None.
Proof.
  apply (item_status_after_registration demo_clock "mug" "Mug" "disposable"
           None None None None None None demo_store).
  - apply (bool_decide_unpack _). vm_compute. exact I.
  - apply Forall_forall. vm_compute.
    repeat (constructor; [discriminate|]). constructor.
  - discriminate.
Defined.

(** ** What a bounded history keeps *)

(** X12. [placement_history] keeps the newest placements of the item and
    drops nothing else: with a bound that is not negative it returns the
    bound's number of entries, or all of them when the item has fewer;
    the entries returned and the placements left out together are the
    placements of the item, and no placement left out is newer than an
    entry returned. *)
Theorem placement_history_keeps_the_newest (s : Store) (id : string)
    (limit : Z) :
  let all := filter (fun p => p_item_id p = id) (placements s) in
  ((0 ≤ limit)%Z →
   length (placement_history s id limit)
   = (Z.to_nat limit `min` length all)%nat)
  ∧ ∃ omitted,
      history_entry_of <$> all
        ≡ₚ placement_history s id limit ++ (history_entry_of <$> omitted)
      ∧ ∀ e p, e ∈ placement_history s id limit → p ∈ omitted →
               ts_le (p_timestamp p) (h_timestamp e).
Proof.
  intros all. unfold placement_history, select_placements. fold all.
  split.
  - intros Hn. unfold sql_limit. destruct (Z.ltb_spec limit 0); [lia|].
    by rewrite length_fmap, length_take, order_by_desc_perm.
  - destruct (sql_limit_take limit (order_by_desc p_timestamp all))
      as [k ->].
    exists (drop k (order_by_desc p_timestamp all)). split.
    + by rewrite <- fmap_app, take_drop, order_by_desc_perm.
    + intros e p (q & -> & Hq)%list_elem_of_fmap Hp.
      pose proof (order_by_desc_sorted p_timestamp all) as Hs.
      rewrite <- (take_drop k (order_by_desc p_timestamp all)) in Hs.
      apply (StronglySorted_app_1_elem_of _ _ _ q p Hs Hq Hp).
Qed.

Lemma placement_history_keeps_the_newest_witness :
  length (placement_history demo_store "towel" 5) = 2%nat.
Proof.
  apply (proj1 (placement_history_keeps_the_newest demo_store "towel" 5)).
  lia.
Defined.

(** ** The latest placement, seen by the three readers *)

Lemma ts_lt_le (a b : string) : ts_lt a b → ts_le a b.
Proof. intros H. apply ts_le_cases. by right. Qed.

Lemma ts_lt_irrefl (a : string) : ¬ ts_lt a a.
Proof. unfold ts_lt. by rewrite string_compare_refl. Qed.

Lemma head_newest_appended (id : string) (new : placement_row)
    (ps : list placement_row) :
  p_item_id new = id →
  (∀ p, p ∈ ps → p_item_id p = id →
        ts_lt (p_timestamp p) (p_timestamp new)) →
  head (order_by_desc p_timestamp
          (filter (fun p => p_item_id p = id) (ps ++ [new])%list))
  = Some new.
Proof.
  intros Hid Hlt.
  set (l := filter (fun p => p_item_id p = id) (ps ++ [new])%list).
  assert (Hnew : new ∈ l).
  { apply list_elem_of_filter. split; [done|].
    apply elem_of_app. right. by apply list_elem_of_singleton. }
  destruct (head (order_by_desc p_timestamp l)) as [h|] eqn:E.
  - apply head_order_by_desc in E as [Hh Hmax]. f_equal.
    apply list_elem_of_filter in Hh as [Hhid Hh].
    apply elem_of_app in Hh as [Hh | Hh];
      [|by apply list_elem_of_singleton in Hh].
    exfalso. apply (ts_lt_not_le (p_timestamp h) (p_timestamp new)); auto.
  - apply head_None in E.
    rewrite <- (elem_of_order_by_desc p_timestamp) in Hnew.
    rewrite E in Hnew. by apply elem_of_nil in Hnew.
Qed.

Lemma head_fmap_list {A B} (f : A → B) (l : list A) :
  head (f <$> l) = f <$> head l.
Proof. by destruct l. Qed.

Lemma head_sql_limit {A} (n : Z) (l : list A) :
  n ≠ 0%Z → head (sql_limit n l) = head l.
Proof.
  intros Hn. unfold sql_limit. destruct (Z.ltb_spec n 0); [done|].
  destruct (Z.to_nat n) as [|k] eqn:E; [lia|]. by destruct l.
Qed.

(** X13. A valid placement of a registered item stamped later than every
    placement the item already has becomes its latest placement for all
    three readers at once: it is the first entry of [placement_history]
    under any bound other than zero, it is the [current_placement] of every
    status [item_status] returns, and [items_in_zone] lists the item under
    the new zone with the new distribution type and timestamp, and under no
    other zone. *)
Theorem record_placement_becomes_latest (age_days : string → age_result)
    (utcnow id zone dtype : string) (routine motive : option string)
    (seen_with : option (list string)) (timestamp meta : option string)
    (s : Store) (item : item_row) :
  dtype ∈ distribution_types →
  item ∈ items s → item_id item = id →
  (∀ p, p ∈ placements s → p_item_id p = id →
        ts_lt (p_timestamp p) (default utcnow timestamp)) →
  let s' := (record_placement utcnow id zone dtype routine motive seen_with
               timestamp meta s).2 in
  let new := placement_row_of utcnow id zone dtype routine motive timestamp
               meta in
  (∀ limit, limit ≠ 0%Z →
            head (placement_history s' id limit)
            = Some (history_entry_of new))
  ∧ (∀ st, item_status age_days s' id = Ok (Some st) →
           current_placement st = Some (placement_view_of new))
  ∧ {| z_item_id := id; z_label := label item; z_category := category item;
       z_distribution_type := dtype;
       z_last_updated := default utcnow timestamp |} ∈ items_in_zone s' zone
  ∧ (∀ zone' zi, zi ∈ items_in_zone s' zone' → z_item_id zi = id →
                 zone' = zone ∧ z_distribution_type zi = dtype
                 ∧ z_last_updated zi = default utcnow timestamp).
Proof.
  intros Hd Hitem Hid Hlt s' new. subst s'.
  rewrite record_placement_valid by done. cbn [snd].
  fold (placement_row_of utcnow id zone dtype routine motive timestamp meta).
  fold new.
  set (s' := appended [new] _ s).
  assert (Hhead : head (order_by_desc p_timestamp
                    (filter (fun p => p_item_id p = id) (placements s')))
                  = Some new) by (by apply head_newest_appended).
  assert (Hmax : max_timestamp s' id = Some (p_timestamp new)).
  { apply max_timestamp_Some. split.
    - exists new. split; [|done]. cbn. apply elem_of_app. right.
      by apply list_elem_of_singleton.
    - intros q Hq Hqid. cbn in Hq. apply elem_of_app in Hq as [Hq | Hq].
      + apply ts_lt_le. by apply Hlt.
      + apply list_elem_of_singleton in Hq as ->. apply ts_le_refl. }
  split; [|split; [|split]].
  - intros limit Hn. unfold placement_history, select_placements.
    by rewrite head_fmap_list, head_sql_limit, Hhead.
  - intros st Hst. apply item_status_Some in Hst as (it & lc & rs & _ & ->).
    cbn [status_with current_placement].
    by rewrite head_select_placements, Hhead.
  - unfold items_in_zone.
    apply (list_elem_of_fmap_2' zone_item_of _
             (id, label item, category item, dtype, p_timestamp new));
      [|done].
    rewrite elem_of_remove_dups, elem_of_zone_rows.
    exists item, new. rewrite Hid. repeat split; try done.
    cbn. apply elem_of_app. right. by apply list_elem_of_singleton.
  - intros zone' zi Hzi Hzid. unfold items_in_zone in Hzi.
    apply list_elem_of_fmap in Hzi as (r & -> & Hr).
    rewrite elem_of_remove_dups, elem_of_zone_rows in Hr.
    destruct Hr as (i & p & Hi & Hp & Hip & Hz & Hm & ->).
    cbn in Hzid. rewrite Hzid in Hm, Hip. rewrite Hmax in Hm.
    injection Hm as Hts. cbn in Hp.
    apply elem_of_app in Hp as [Hp | Hp].
    + exfalso. apply (ts_lt_irrefl (p_timestamp new)).
      pose proof (Hlt p Hp (eq_sym Hip)) as Hp'. by rewrite Hts in Hp'.
    + apply list_elem_of_singleton in Hp as ->. by rewrite <- Hz.
Qed.

Lemma record_placement_becomes_latest_witness :
  {| z_item_id := "towel"; z_label := "Bath towel";
     z_category := "good_stuff"; z_distribution_type := "discard";
     z_last_updated := "2024-03-01T08:00:00" |}
  ∈ items_in_zone
      (record_placement "2024-03-01T08:00:00" "towel" "attic" "discard"
         None None None None None demo_store).2 "attic".
Proof.
  refine (proj1 (proj2 (proj2
    (record_placement_becomes_latest demo_clock "2024-03-01T08:00:00"
       "towel" "attic" "discard" None None None None None demo_store
       {| item_id := "towel"; label := "Bath towel";
          category := "good_stuff"; purchase_date := Some "2020-01-01";
          expected_lifespan_years := Some 5%Q; current_quantity := None;
          refill_threshold := None; usage_rate_per_day := None;
          metadata := "{}" |} _ _ _ _)))).
  - apply (bool_decide_unpack _). vm_compute. exact I.
  - vm_compute. apply list_elem_of_In. simpl. auto.
  - reflexivity.
  - apply (Forall_forall
             (fun p => p_item_id p = "towel" →
                       ts_lt (p_timestamp p) "2024-03-01T08:00:00")).
    vm_compute.
    repeat (constructor; [intros _; reflexivity|]). constructor.
Defined.

(** ** Listings *)

#[local] Instance ascending_total {A} (key : A → string) :
  Total (fun x y => ts_le (key x) (key y)).
Proof. intros x y. apply ts_le_total. Qed.

#[local] Instance ascending_trans {A} (key : A → string) :
  Transitive (fun x y => ts_le (key x) (key y)).
Proof. intros x y z Hxy Hyz. by transitivity (key y). Qed.

Lemma order_by_asc_sorted {A} (key : A → string) (l : list A) :
  StronglySorted (fun x y => ts_le (key x) (key y)) (order_by_asc key l).
Proof.
  apply (StronglySorted_merge_sort (fun x y => ts_le (key x) (key y))).
Qed.

Lemma order_by_asc_perm {A} (key : A → string) (l : list A) :
  order_by_asc key l ≡ₚ l.
Proof.
  apply (merge_sort_Permutation (fun x y => ts_le (key x) (key y))).
Qed.

(** X14. [all_items] lists every row of [items] once, as its identity,
    label and category, and in ascending order of label: each entry's label
    is at most the label of every entry after it. *)
Theorem all_items_complete_and_sorted (s : Store) :
  all_items s ≡ₚ item_summary_of <$> items s
  ∧ StronglySorted (fun x y => ts_le (a_label x) (a_label y)) (all_items s).
Proof.
  unfold all_items. split.
  - by rewrite order_by_asc_perm.
  - apply (StronglySorted_fmap _ (fun x y => ts_le (label x) (label y)));
      [auto|]. apply order_by_asc_sorted.
Qed.

Lemma list_zones_zones (s : Store) : list_zones s = zones s.
Proof.
  unfold list_zones. induction (zones s) as [|[i n d] l IH]; [done|].
  csimpl. by rewrite IH.
Qed.

(** X15. [register_zone] never fails, and [list_zones] then shows the zone
    with the name and description just given: every listed zone of that
    identity carries them, so nothing of an earlier registration survives.
    The zones of other identities are listed exactly as before.  Recording
    a placement, even in a zone that was never registered, adds no zone. *)
Theorem register_zone_then_list_zones (id name descr : string) (s : Store) :
  let s' := (register_zone id name descr s).2 in
  (register_zone id name descr s).1 = Ok tt
  ∧ {| zone_id := id; zone_name := name; description := descr |}
    ∈ list_zones s'
  ∧ (∀ z, z ∈ list_zones s' → zone_id z = id →
          zone_name z = name ∧ description z = descr)
  ∧ (∀ z, zone_id z ≠ id → z ∈ list_zones s' ↔ z ∈ list_zones s)
  ∧ ∀ (utcnow item zone dtype : string) (routine motive : option string)
      (seen_with : option (list string)) (timestamp meta : option string),
      list_zones (record_placement utcnow item zone dtype routine motive
                    seen_with timestamp meta s).2
      = list_zones s.
Proof.
  cbn zeta. rewrite !list_zones_zones.
  change (zones (register_zone id name descr s).2)
    with (filter (fun z' => zone_id z' ≠ id) (zones s)
          ++ [ {| zone_id := id; zone_name := name;
                  description := descr |} ])%list.
  split; [done|]. split; [|split; [|split]].
  - apply elem_of_app. right. by apply list_elem_of_singleton.
  - intros z [Hz | Hz]%elem_of_app Hid.
    + by apply list_elem_of_filter in Hz as [Hne _].
    + by apply list_elem_of_singleton in Hz as ->.
  - intros z Hne. rewrite elem_of_app, list_elem_of_filter,
      list_elem_of_singleton. split.
    + intros [[_ Hz] | ->]; [done|]. by cbn in Hne.
    + intros Hz. by left.
  - intros. rewrite !list_zones_zones.
    destruct (decide (dtype ∈ distribution_types)) as [Hd | Hd].
    + by rewrite record_placement_valid.
    + by rewrite record_placement_invalid.
Qed.

Lemma register_zone_then_list_zones_witness :
  zone_name {| zone_id := "hall"; zone_name := "Hall";
               description := "by the door" |} = "Hall"
  ∧ description {| zone_id := "hall"; zone_name := "Hall";
                   description := "by the door" |} = "by the door".
Proof.
  refine (proj1 (proj2 (proj2
    (register_zone_then_list_zones "hall" "Hall" "by the door"
       (register_zone "hall" "Corridor" "old" empty_store).2)))
    {| zone_id := "hall"; zone_name := "Hall";
       description := "by the door" |} _ _).
  - vm_compute. apply list_elem_of_In. simpl. auto.
  - reflexivity.
Defined.

(** ** Counts per group *)

Lemma elem_of_group_count {A K} `{EqDecision K} (key : A → K) (l : list A)
    (k : K) (n : nat) :
  (k, n) ∈ group_count key l ↔
  k ∈ key <$> l ∧ n = length (filter (fun x => key x = k) l).
Proof.
  unfold group_count. rewrite list_elem_of_fmap. split.
  - intros (k' & [= -> ->] & Hk). by rewrite elem_of_remove_dups in Hk.
  - intros [Hk ->]. exists k. by rewrite elem_of_remove_dups.
Qed.

Lemma group_present {A K} `{EqDecision K} (key : A → K) (l : list A) (k : K) :
  k ∈ key <$> l ↔ length (filter (fun x => key x = k) l) ≠ 0%nat.
Proof.
  rewrite list_elem_of_fmap. split.
  - intros (x & -> & Hx) Hlen. apply length_zero_iff_nil in Hlen.
    assert (Hin : x ∈ filter (fun y => key y = key x) l)
      by (by apply list_elem_of_filter).
    rewrite Hlen in Hin. by apply elem_of_nil in Hin.
  - intros Hlen. destruct (filter _ l) as [|x l'] eqn:E; [done|].
    assert (Hin : x ∈ filter (fun y => key y = k) l)
      by (rewrite E; apply elem_of_cons; by left).
    apply list_elem_of_filter in Hin as [Hk Hin]. by exists x.
Qed.

Lemma dict_of_rows_lookup (rows : list (string * nat)) (k : string)
    (n : nat) :
  NoDup rows.*1 → dict_of_rows rows !! k = Some n ↔ (k, n) ∈ rows.
Proof.
  intros Hnd. rewrite <- elem_of_map_to_list. unfold dict_of_rows.
  rewrite (dict_of_rows_acc rows ∅ Hnd) by (intros; apply lookup_empty).
  by rewrite map_to_list_empty, app_nil_r.
Qed.

(** X16. Looking a distribution type up in [overall_counts] gives the
    number of placements of that type, and a type with no placement has no
    entry at all: the dict never holds a zero. *)
Theorem overall_counts_lookup (s : Store) (d : string) :
  overall_counts (distribution_patterns s) !! d
  = match length (filter (fun p => p_distribution_type p = d) (placements s))
    with
    | O => None
    | S n => Some (S n)
    end.
Proof.
  unfold distribution_patterns. cbn [overall_counts].
  assert (Hnd : NoDup (group_count p_distribution_type (placements s)).*1)
    by (rewrite group_count_keys; apply NoDup_remove_dups).
  pose proof (group_present p_distribution_type (placements s) d) as Hp.
  destruct (length (filter _ (placements s))) as [|n] eqn:E.
  - apply eq_None_not_Some. intros [m Hm].
    apply (dict_of_rows_lookup _ _ _ Hnd), elem_of_group_count in Hm
      as [Hin _]. by apply Hp in Hin.
  - apply (dict_of_rows_lookup _ _ _ Hnd), elem_of_group_count.
    split; [|done]. by apply Hp.
Qed.

(** X17. [by_zone] has one entry per pair of zone and distribution type that
    occurs in the ledger.  Its count is the number of placements of that
    pair, never zero, and the counts of all entries add up to the number of
    placements. *)
Theorem by_zone_counts (s : Store) :
  let entries := by_zone (distribution_patterns s) in
  NoDup ((fun z => (zc_zone z, zc_distribution_type z)) <$> entries)
  ∧ (∀ z, z ∈ entries →
          zc_count z
          = length (filter (fun p => p_zone p = zc_zone z
                                     ∧ p_distribution_type p
                                       = zc_distribution_type z)
                      (placements s))
          ∧ zc_count z ≠ 0%nat)
  ∧ sum_list (zc_count <$> entries) = length (placements s).
Proof.
  cbn zeta. unfold distribution_patterns. cbn [by_zone].
  set (key := fun p => (p_zone p, p_distribution_type p)).
  split; [|split].
  - rewrite <- list_fmap_compose.
    rewrite (list_fmap_ext _ fst (group_count key (placements s)))
      by (by intros ? [[] ?]).
    rewrite group_count_keys. apply NoDup_remove_dups.
  - intros z (r & -> & Hr)%list_elem_of_fmap. destruct r as [[zn dt] n].
    apply elem_of_group_count in Hr as [Hin ->]. cbn.
    rewrite (list_filter_iff
               (fun p => p_zone p = zn ∧ p_distribution_type p = dt)
               (fun p => key p = (zn, dt)))
      by (intros p; unfold key; split; [by intros [-> ->]|by intros [= -> ->]]).
    split; [done|]. by apply group_present.
  - rewrite <- list_fmap_compose.
    rewrite (list_fmap_ext _ snd (group_count key (placements s)))
      by (by intros ? [[] ?]).
    apply group_count_sum.
Qed.

Lemma by_zone_counts_witness :
  zc_count {| zc_zone := "hall"; zc_distribution_type := "stack";
              zc_count := 1 |}
  = length (filter (fun p => p_zone p = "hall"
                             ∧ p_distribution_type p = "stack")
              (placements demo_store))
  ∧ zc_count {| zc_zone := "hall"; zc_distribution_type := "stack";
                zc_count := 1 |} ≠ 0%nat.
Proof.
  refine (proj1 (proj2 (by_zone_counts demo_store))
            {| zc_zone := "hall"; zc_distribution_type := "stack";
               zc_count := 1 |} _).
  vm_compute. apply list_elem_of_In. simpl. auto.
Defined.


(** ** Routines *)

#[local] Instance by_frequency_total {A} (freq : A → nat) :
  Total (fun x y => (freq y <= freq x)%nat).
Proof. intros x y. lia. Qed.

#[local] Instance by_frequency_trans {A} (freq : A → nat) :
  Transitive (fun x y => (freq y <= freq x)%nat).
Proof. intros x y z. lia. Qed.

Lemma order_by_frequency_desc_sorted {A} (freq : A → nat) (l : list A) :
  StronglySorted (fun x y => (freq y <= freq x)%nat)
    (order_by_frequency_desc freq l).
Proof.
  apply (StronglySorted_merge_sort (fun x y => (freq y <= freq x)%nat)).
Qed.

Lemma order_by_frequency_desc_perm {A} (freq : A → nat) (l : list A) :
  order_by_frequency_desc freq l ≡ₚ l.
Proof.
  apply (merge_sort_Permutation (fun x y => (freq y <= freq x)%nat)).
Qed.

Lemma elem_of_routine_rows (s : Store) (rp : string * placement_row) :
  rp ∈ routine_rows s ↔ rp.2 ∈ placements s ∧ p_routine rp.2 = Some rp.1.
Proof.
  unfold routine_rows. rewrite list_elem_of_omap. split.
  - intros (p & Hp & Hsel). destruct (p_routine p) as [r|] eqn:E; [|done].
    injection Hsel as <-. by cbn.
  - intros [Hp Hr]. exists rp.2. split; [done|]. rewrite Hr.
    by destruct rp.
Qed.

Lemma routine_rows_length (s : Store) :
  length (routine_rows s)
  = length (filter (fun p => is_Some (p_routine p)) (placements s)).
Proof.
  unfold routine_rows. induction (placements s) as [|p l IH]; [done|].
  rewrite filter_cons. csimpl. destruct (p_routine p) as [r|].
  - rewrite decide_True by done. cbn. by rewrite IH.
  - rewrite decide_False by (by intros [? ?]). done.
Qed.

Lemma routine_members_length (s : Store) (k : string * option string) :
  length (filter (fun rp => routine_key rp = k) (routine_rows s))
  = length (filter (fun p => p_routine p = Some k.1 ∧ p_motive p = k.2)
              (placements s)).
Proof.
  unfold routine_rows. destruct k as [rt mo]. cbn [fst snd].
  induction (placements s) as [|p l IH]; [done|].
  rewrite (filter_cons (fun p => _ ∧ _)). csimpl.
  destruct (p_routine p) as [r|] eqn:E.
  - rewrite filter_cons. unfold routine_key at 1. cbn [fst snd].
    destruct (decide (r = rt ∧ p_motive p = mo)) as [[-> Hm] | Hne].
    + rewrite (decide_True (P := (rt, p_motive p) = (rt, mo)))
        by congruence.
      rewrite (decide_True (P := Some rt = Some rt ∧ p_motive p = mo))
        by done.
      cbn. by rewrite IH.
    + rewrite (decide_False (P := (r, p_motive p) = (rt, mo)))
        by (intros [= ? ?]; by apply Hne).
      rewrite (decide_False (P := Some r = Some rt ∧ p_motive p = mo))
        by (intros [[= ?] ?]; by apply Hne).
      done.
  - rewrite decide_False by (by intros [? ?]). done.
Qed.

Lemma elem_of_routine_groups (s : Store)
    (g : string * option string * nat * option string) :
  g ∈ routine_groups s ↔
  (g.1.1.1, g.1.1.2) ∈ routine_key <$> routine_rows s
  ∧ g.1.2 = length (filter (fun rp => routine_key rp = (g.1.1.1, g.1.1.2))
                      (routine_rows s))
  ∧ g.2 = group_concat
            (remove_dups
               ((fun rp => p_zone rp.2)
                  <$> filter (fun rp => routine_key rp = (g.1.1.1, g.1.1.2))
                        (routine_rows s))).
Proof.
  unfold routine_groups. rewrite list_elem_of_fmap. split.
  - intros ([rt mo] & -> & Hk). rewrite elem_of_remove_dups in Hk. by cbn.
  - destruct g as [[[rt mo] n] z]. cbn. intros (Hk & -> & ->).
    exists (rt, mo). split; [done|]. by rewrite elem_of_remove_dups.
Qed.

Lemma routine_groups_keys (s : Store) :
  (fun g => (g.1.1.1, g.1.1.2)) <$> routine_groups s
  = remove_dups (routine_key <$> routine_rows s).
Proof.
  unfold routine_groups. rewrite <- list_fmap_compose.
  rewrite (list_fmap_ext _ id (remove_dups _)) by (by intros ? []).
  apply list_fmap_id.
Qed.

(** X18. [routine_insights] has one entry per pair of routine and motive
    that occurs among the placements carrying a routine, an absent motive
    being a value of its own.  The frequency of an entry is the number of
    those placements, never zero; the entries come in descending order of
    frequency; and their frequencies add up to the number of placements that
    carry a routine, so a placement without routine is counted nowhere. *)
Theorem routine_insights_frequencies (s : Store) :
  let out := routine_insights s in
  NoDup ((fun r => (ri_routine r, ri_motive r)) <$> out)
  ∧ (∀ rt mo, (rt, mo) ∈ (fun r => (ri_routine r, ri_motive r)) <$> out ↔
              ∃ p, p ∈ placements s ∧ p_routine p = Some rt
                   ∧ p_motive p = mo)
  ∧ (∀ r, r ∈ out →
          ri_frequency r
          = length (filter (fun p => p_routine p = Some (ri_routine r)
                                     ∧ p_motive p = ri_motive r)
                      (placements s))
          ∧ ri_frequency r ≠ 0%nat)
  ∧ StronglySorted (fun x y => (ri_frequency y <= ri_frequency x)%nat) out
  ∧ sum_list (ri_frequency <$> out)
    = length (filter (fun p => is_Some (p_routine p)) (placements s)).
Proof.
  cbn zeta. unfold routine_insights.
  set (f := fun r : string * option string * nat * option string => r.1.2).
  assert (Hkeys : (fun r => (ri_routine r, ri_motive r))
                    <$> (routine_insight_of
                           <$> order_by_frequency_desc f (routine_groups s))
                  ≡ₚ remove_dups (routine_key <$> routine_rows s)).
  { rewrite <- list_fmap_compose, order_by_frequency_desc_perm.
    by rewrite <- routine_groups_keys. }
  split; [|split; [|split; [|split]]].
  - rewrite Hkeys. apply NoDup_remove_dups.
  - intros rt mo. rewrite Hkeys, elem_of_remove_dups, list_elem_of_fmap.
    split.
    + intros (rp & Hk & [Hp Hr]%elem_of_routine_rows).
      injection Hk as -> ->. by exists rp.2.
    + intros (p & Hp & Hr & Hm). exists (rt, p). split; [by rewrite <- Hm|].
      by apply elem_of_routine_rows.
  - intros r (g & -> & Hg)%list_elem_of_fmap.
    rewrite order_by_frequency_desc_perm in Hg.
    apply elem_of_routine_groups in Hg as (Hk & Hn & _).
    cbn [routine_insight_of ri_frequency ri_routine ri_motive].
    rewrite Hn, routine_members_length. split; [done|].
    rewrite <- routine_members_length. by apply group_present.
  - apply (StronglySorted_fmap _ (fun x y => (f y <= f x)%nat)); [auto|].
    apply order_by_frequency_desc_sorted.
  - rewrite <- list_fmap_compose, order_by_frequency_desc_perm.
    rewrite <- routine_rows_length. unfold routine_groups.
    rewrite <- list_fmap_compose.
    apply (sum_counts routine_key).
    + apply NoDup_remove_dups.
    + intros rp Hrp. rewrite elem_of_remove_dups.
      by apply list_elem_of_fmap_2.
Qed.

Lemma routine_insights_frequencies_witness :
  ri_frequency {| ri_routine := "night routine";
                  ri_motive := Some "reachability"; ri_frequency := 1;
                  ri_zones := ["bathroom"] |} ≠ 0%nat.
Proof.
  refine (proj2 (proj1 (proj2 (proj2
    (routine_insights_frequencies
       (record_placement "2024-05-01T21:00:00" "soap" "bathroom" "placed"
          (Some "night routine") (Some "reachability") None None None
          empty_store).2)))
    {| ri_routine := "night routine"; ri_motive := Some "reachability";
       ri_frequency := 1; ri_zones := ["bathroom"] |} _)).
  vm_compute. apply list_elem_of_In. simpl. auto.
Defined.

Lemma split_comma_comma_free (x : string) :
  comma_free x = true → split_comma x = [x].
Proof.
  induction x as [|a x IH]; [done|]. cbn [comma_free split_comma].
  intros [Ha Hx]%andb_true_iff. apply negb_true_iff in Ha.
  by rewrite Ha, IH.
Qed.

Lemma split_comma_app (x rest : string) :
  comma_free x = true →
  split_comma (x ++ "," ++ rest) = x :: split_comma rest.
Proof.
  induction x as [|a x IH]; [done|]. cbn [comma_free].
  intros [Ha Hx]%andb_true_iff. apply negb_true_iff in Ha.
  change (split_comma (String a (x ++ "," ++ rest))
          = String a x :: split_comma rest).
  cbn [split_comma]. by rewrite Ha, IH.
Qed.

Lemma split_comma_join_comma (l : list string) :
  l ≠ [] → (∀ x, x ∈ l → comma_free x = true) →
  split_comma (join_comma l) = l.
Proof.
  induction l as [|x l IH]; [done|]. intros _ Hfree.
  destruct l as [|y l].
  - cbn. apply split_comma_comma_free, Hfree. by left.
  - change (join_comma (x :: y :: l))
      with (x ++ "," ++ join_comma (y :: l)).
    rewrite split_comma_app by (apply Hfree; by left).
    rewrite IH; [done|done|]. intros z Hz. apply Hfree. by right.
Qed.

Lemma join_comma_nonempty (l : list string) :
  l ≠ [] → (∀ x, x ∈ l → x ≠ "") → join_comma l ≠ "".
Proof.
  destruct l as [|x l]; [done|]. intros _ Hne.
  assert (Hx : x ≠ "") by (apply Hne; by left).
  destruct l as [|y l]; [done|].
  change (join_comma (x :: y :: l)) with (x ++ "," ++ join_comma (y :: l)).
  by destruct x.
Qed.

(** X19. When no zone name of a placement that carries a routine is empty
    or holds a comma, the [zones] of an entry of [routine_insights] are the
    zones of the placements of its routine and motive, each zone once: the
    join of the query and the split of the caller undo each other. *)
Theorem routine_insights_zones (s : Store) (r : routine_insight) :
  (∀ p, p ∈ placements s → is_Some (p_routine p) →
        comma_free (p_zone p) = true ∧ p_zone p ≠ "") →
  r ∈ routine_insights s →
  NoDup (ri_zones r)
  ∧ ∀ z, z ∈ ri_zones r ↔
         ∃ p, p ∈ placements s ∧ p_routine p = Some (ri_routine r)
              ∧ p_motive p = ri_motive r ∧ p_zone p = z.
Proof.
  intros Hzones (g & -> & Hg)%list_elem_of_fmap.
  rewrite order_by_frequency_desc_perm in Hg.
  apply elem_of_routine_groups in Hg as (Hk & _ & Hz).
  destruct g as [[[rt mo] n] zs]. cbn in Hk, Hz.
  cbn [routine_insight_of ri_zones ri_routine ri_motive fst snd].
  set (members := filter (fun rp => routine_key rp = (rt, mo))
                    (routine_rows s)) in *.
  set (l := remove_dups ((fun rp => p_zone rp.2) <$> members)) in *.
  assert (Hmem : ∀ z, z ∈ l ↔
            ∃ p, p ∈ placements s ∧ p_routine p = Some rt
                 ∧ p_motive p = mo ∧ p_zone p = z).
  { intros z. unfold l. rewrite elem_of_remove_dups, list_elem_of_fmap.
    split.
    - intros (rp & -> & Hrp). apply list_elem_of_filter in Hrp as [Hkey Hrp].
      apply elem_of_routine_rows in Hrp as [Hp Hr].
      injection Hkey as <- <-. by exists rp.2.
    - intros (p & Hp & Hr & Hm & <-). exists (rt, p). split; [done|].
      apply list_elem_of_filter. split; [by rewrite <- Hm|].
      by apply elem_of_routine_rows. }
  assert (Hl : l ≠ []).
  { apply list_elem_of_fmap in Hk as (rp & Hkey & Hrp).
    intros Hnil.
    assert (Hin : p_zone rp.2 ∈ l).
    { apply Hmem. apply elem_of_routine_rows in Hrp as [Hp Hr].
      injection Hkey as -> ->. by exists rp.2. }
    rewrite Hnil in Hin. by apply elem_of_nil in Hin. }
  assert (Hfree : ∀ x, x ∈ l → comma_free x = true ∧ x ≠ "").
  { intros x (p & Hp & Hr & _ & <-)%Hmem. apply Hzones; [done|].
    by rewrite Hr. }
  assert (Hsplit : match zs with
                   | Some z => if String.eqb z "" then [] else split_comma z
                   | None => []
                   end = l).
  { rewrite Hz. unfold group_concat. destruct l as [|x l'] eqn:El; [done|].
    rewrite <- El in *.
    rewrite (proj2 (String.eqb_neq _ _))
      by (apply join_comma_nonempty; [done|]; intros y Hy; by apply Hfree).
    apply split_comma_join_comma; [done|]. intros y Hy. by apply Hfree. }
  rewrite Hsplit. split; [apply NoDup_remove_dups | exact Hmem].
Qed.

Lemma routine_insights_zones_witness :
  "bathroom" ∈ ["bathroom"] ↔
  ∃ p, p ∈ placements
             (record_placement "2024-05-01T21:00:00" "soap" "bathroom"
                "placed" (Some "night routine") (Some "reachability")
                None None None empty_store).2
       ∧ p_routine p = Some "night routine"
       ∧ p_motive p = Some "reachability" ∧ p_zone p = "bathroom".
Proof.
  refine (proj2 (routine_insights_zones
    (record_placement "2024-05-01T21:00:00" "soap" "bathroom" "placed"
       (Some "night routine") (Some "reachability") None None None
       empty_store).2
    {| ri_routine := "night routine"; ri_motive := Some "reachability";
       ri_frequency := 1; ri_zones := ["bathroom"] |} _ _) "bathroom").
  - apply (Forall_forall
             (fun p => is_Some (p_routine p) →
                       comma_free (p_zone p) = true ∧ p_zone p ≠ "")).
    vm_compute.
    repeat (constructor; [intros _; split; [reflexivity|discriminate]|]).
    constructor.
  - vm_compute. apply list_elem_of_In. simpl. auto.
Defined.

(** ** Errors of the attention report, and the export *)

Lemma aging_loop_Raise_elim (age_days : string → age_result)
    (aging : list (string * string * string * Q))
    (acc : list replacement_entry) (e : error) :
  aging_loop age_days aging acc = Raise e →
  ∃ row, row ∈ aging ∧ age_error (age_days row.1.2) = Some e.
Proof.
  revert acc. induction aging as [|[[[id0 lbl] pd] L] aging IH]; intros acc.
  - done.
  - cbn [aging_loop]. unfold age_years.
    assert (Hrest : ∀ acc', aging_loop age_days aging acc' = Raise e →
              ∃ row, row ∈ (id0, lbl, pd, L) :: aging
                     ∧ age_error (age_days row.1.2) = Some e).
    { intros acc' (row & Hrow & Hk)%IH. exists row. split; [by right|done]. }
    destruct (age_days pd) as [d| |] eqn:Hd; cbn [mbind result_bind].
    + set (rem := (L - inject_Z d / 365.25)%Q).
      destruct (Qltb rem (L * 0.2) && Qgtb rem 0) eqn:Hcond; [|apply Hrest].
      apply andb_true_iff in Hcond as [Hlt%Qltb_true Hgt%Qgtb_true].
      unfold truediv. rewrite Qeq_bool_false by lra. cbn [mbind result_bind].
      apply Hrest.
    + intros [= <-]. exists (id0, lbl, pd, L). split; [by left|].
      cbn. by rewrite Hd.
    + intros [= <-]. exists (id0, lbl, pd, L). split; [by left|].
      cbn. by rewrite Hd.
Qed.

Lemma aging_loop_Raise_intro (age_days : string → age_result)
    (aging : list (string * string * string * Q))
    (acc : list replacement_entry) (row : string * string * string * Q) :
  row ∈ aging → is_Some (age_error (age_days row.1.2)) →
  ∃ e, aging_loop age_days aging acc = Raise e.
Proof.
  revert acc. induction aging as [|[[[id0 lbl] pd] L] aging IH]; intros acc.
  - by intros ?%elem_of_nil.
  - intros Hrow Hfail. cbn [aging_loop]. unfold age_years.
    destruct (age_days pd) as [d| |] eqn:Hd; cbn [mbind result_bind];
      [|by eexists..].
    apply elem_of_cons in Hrow as [-> | Hrow].
    { cbn in Hfail. rewrite Hd in Hfail. by destruct Hfail. }
    set (rem := (L - inject_Z d / 365.25)%Q).
    destruct (Qltb rem (L * 0.2) && Qgtb rem 0) eqn:Hcond; [|by apply IH].
    apply andb_true_iff in Hcond as [Hlt%Qltb_true Hgt%Qgtb_true].
    unfold truediv. rewrite Qeq_bool_false by lra. cbn [mbind result_bind].
    by apply IH.
Qed.

Lemma items_needing_attention_loop (age_days : string → age_result)
    (s : Store) (e : error) :
  items_needing_attention age_days s = Raise e
  ↔ aging_loop age_days (select_aging s) [] = Raise e.
Proof.
  unfold items_needing_attention.
  destruct (aging_loop age_days (select_aging s) []); cbn; split; congruence.
Qed.

Lemma items_needing_attention_Raise_elim (age_days : string → age_result)
    (s : Store) (e : error) :
  items_needing_attention age_days s = Raise e →
  ∃ r pd, r ∈ items s ∧ category r = "good_stuff"
          ∧ purchase_date r = Some pd
          ∧ is_Some (expected_lifespan_years r)
          ∧ age_error (age_days pd) = Some e.
Proof.
  rewrite items_needing_attention_loop.
  intros (row & Hrow & Hk)%aging_loop_Raise_elim.
  apply elem_of_select_aging in Hrow as (r & Hr & Hc & Hpd & HL & _).
  exists r, row.1.2. by rewrite HL.
Qed.

Lemma items_needing_attention_Raise_intro (age_days : string → age_result)
    (s : Store) (r : item_row) (pd : string) :
  r ∈ items s → category r = "good_stuff" → purchase_date r = Some pd →
  is_Some (expected_lifespan_years r) →
  is_Some (age_error (age_days pd)) →
  ∃ e, items_needing_attention age_days s = Raise e.
Proof.
  intros Hr Hc Hpd [L HL] Hfail.
  destruct (aging_loop_Raise_intro age_days (select_aging s) []
              (item_id r, label r, pd, L)) as [e He]; [|done|].
  - apply elem_of_select_aging. exists r. by cbn.
  - exists e. by apply items_needing_attention_loop.
Qed.

(** X20. The only errors of [items_needing_attention] are those of the age
    computation.  The call raises exactly when some [good_stuff] row with
    both a purchase date and a lifespan set holds a date whose age cannot
    be computed, and the error is that of such a row: a ValueError for a
    date that [fromisoformat] rejects, a TypeError for a date with a UTC
    offset.  One such row is enough to lose the whole report, and no row
    makes the call divide by zero. *)
Theorem items_needing_attention_raises_only_on_date_errors
    (age_days : string → age_result) (s : Store) :
  ((∃ e, items_needing_attention age_days s = Raise e) ↔
   ∃ r pd, r ∈ items s ∧ category r = "good_stuff"
           ∧ purchase_date r = Some pd
           ∧ is_Some (expected_lifespan_years r)
           ∧ (age_days pd = Malformed ∨ age_days pd = OffsetAware))
  ∧ (∀ e, items_needing_attention age_days s = Raise e →
          ∃ r pd, r ∈ items s ∧ category r = "good_stuff"
                  ∧ purchase_date r = Some pd
                  ∧ is_Some (expected_lifespan_years r)
                  ∧ ((age_days pd = Malformed ∧ e = ValueError)
                     ∨ (age_days pd = OffsetAware ∧ e = TypeError))).
Proof.
  split; [split|].
  - intros [e (r & pd & Hr & Hc & Hpd & HL & Hk%age_error_kinds)
              %items_needing_attention_Raise_elim].
    exists r, pd. repeat (split; [done|]).
    destruct Hk as [[? _] | [? _]]; auto.
  - intros (r & pd & Hr & Hc & Hpd & HL & Hfail).
    apply (items_needing_attention_Raise_intro age_days s r pd); try done.
    destruct Hfail as [-> | ->]; by eexists.
  - intros e (r & pd & Hr & Hc & Hpd & HL & Hk%age_error_kinds)
             %items_needing_attention_Raise_elim.
    by exists r, pd.
Qed.

Lemma items_needing_attention_raises_only_on_date_errors_witness :
  ∃ e, items_needing_attention (fun _ => OffsetAware) demo_store = Raise e.
Proof.
  apply (proj2 (proj1 (items_needing_attention_raises_only_on_date_errors
                         (fun _ => OffsetAware) demo_store))).
  exists {| item_id := "towel"; label := "Bath towel";
            category := "good_stuff"; purchase_date := Some "2020-01-01";
            expected_lifespan_years := Some 5%Q; current_quantity := None;
            refill_threshold := None; usage_rate_per_day := None;
            metadata := "{}" |}, "2020-01-01".
  split; [vm_compute; apply list_elem_of_In; simpl; auto|].
  repeat split; try reflexivity; [by eexists|]. by right.
Defined.

Lemma export_items_spec (age_days : string → age_result) (s : Store)
    (listed : list item_summary) (acc : list status) :
  (∀ it, it ∈ listed →
         ∃ st, item_status age_days s (a_item_id it) = Ok (Some st)) →
  ∃ out, export_items age_days s listed acc = Ok (acc ++ out)%list
         ∧ Forall2 (fun st it =>
                      item_status age_days s (a_item_id it) = Ok (Some st))
             out listed.
Proof.
  revert acc. induction listed as [|it listed IH]; intros acc Hall.
  - exists []. split; [by rewrite app_nil_r | constructor].
  - destruct (Hall it) as [st Hst]; [by left|].
    destruct (IH (acc ++ [st])%list) as (out & Hrun & Hout).
    { intros it' Hit'. apply Hall. by right. }
    exists (st :: out). split.
    + cbn [export_items]. rewrite Hst. cbn [mbind result_bind].
      by rewrite Hrun, <- app_assoc.
    + by constructor.
Qed.

Lemma elem_of_all_items (s : Store) (it : item_summary) :
  it ∈ all_items s ↔ ∃ r, r ∈ items s ∧ it = item_summary_of r.
Proof.
  unfold all_items. rewrite list_elem_of_fmap. split.
  - intros (r & -> & Hr). rewrite order_by_asc_perm in Hr. by exists r.
  - intros (r & Hr & ->). exists r. by rewrite order_by_asc_perm.
Qed.

Lemma item_status_listed (age_days : string → age_result) (s : Store)
    (att : attention) (it : item_summary) :
  items_needing_attention age_days s = Ok att → it ∈ all_items s →
  ∃ st, item_status age_days s (a_item_id it) = Ok (Some st).
Proof.
  intros Hatt (r & Hr & ->)%elem_of_all_items. cbn.
  destruct (item_status age_days s (item_id r)) as [[st|]|e] eqn:E.
  - by exists st.
  - apply item_status_Ok_None in E. exfalso. apply E. by exists r.
  - apply item_status_Raise in E
      as (item & p & l & Hfind & Hc & Hp & _ & Hl & _ & Hfail).
    apply find_item_Some in Hfind as [Hin _].
    destruct (items_needing_attention_Raise_intro age_days s item p)
      as [e' Hraise]; [done | done | done | by rewrite Hl
                      | by rewrite Hfail |].
    congruence.
Qed.

(** X21. The export fails exactly when the attention report fails, with the
    same error; the statuses never add a failure of their own.  When it
    succeeds, the exported document holds the time of the call, the zones,
    the patterns and the attention report as the queries return them, and
    one status per listed item, in the order of [all_items], each the status
    [item_status] returns for that item. *)
Theorem export_data_spec (age_days : string → age_result) (utcnow : string)
    (s : Store) :
  (∀ e, export_data age_days utcnow s = Raise e ↔
        items_needing_attention age_days s = Raise e)
  ∧ (∀ ex, export_data age_days utcnow s = Ok ex →
           ex_exported_at ex = utcnow
           ∧ ex_zones ex = list_zones s
           ∧ ex_patterns ex = distribution_patterns s
           ∧ items_needing_attention age_days s = Ok (ex_attention ex)
           ∧ Forall2 (fun st it =>
                        item_status age_days s (a_item_id it) = Ok (Some st))
               (ex_items ex) (all_items s)).
Proof.
  unfold export_data.
  destruct (items_needing_attention age_days s) as [att|e'] eqn:Hatt;
    cbn [mbind result_bind].
  - destruct (export_items_spec age_days s (all_items s) [])
      as (out & Hrun & Hout).
    { intros it Hit. by apply (item_status_listed age_days s att). }
    rewrite Hrun. cbn [mbind result_bind app]. split.
    + intros e. split; intros H; discriminate H.
    + intros ex [= <-]. by cbn.
  - split.
    + intros e. split; intros [= ->]; reflexivity.
    + intros ex H. discriminate H.
Qed.

Lemma export_data_spec_witness :
  ∃ ex, export_data demo_clock "2024-06-01T00:00:00" demo_store = Ok ex
        ∧ ex_exported_at ex = "2024-06-01T00:00:00"
        ∧ ex_zones ex = list_zones demo_store.
Proof.
  eexists. split; [vm_compute; reflexivity|].
  refine ((fun H => conj (proj1 H) (proj1 (proj2 H)))
            (proj2 (export_data_spec demo_clock "2024-06-01T00:00:00"
                      demo_store) _ _)).
  vm_compute. reflexivity.
Defined.

(** X22. An empty purchase date, or a lifespan of zero, on a [good_stuff]
    row splits the two readers.  [item_status] takes the column for absent
    and returns the status without a lifecycle; [items_needing_attention]
    takes it for set, parses the date, and when the date does not parse the
    report and the export both fail, with the same error.  That error is a
    ValueError unless a purchase date in the table carries a UTC offset. *)
Theorem falsy_lifecycle_column_splits_readers (age_days : string → age_result)
    (utcnow : string) (s : Store) (item : item_row) (pd : string) (l : Q) :
  find_item s (item_id item) = Some item →
  category item = "good_stuff" →
  purchase_date item = Some pd → expected_lifespan_years item = Some l →
  pd = "" ∨ (l == 0)%Q →
  age_days pd = Malformed →
  (∃ st, item_status age_days s (item_id item) = Ok (Some st)
         ∧ lifecycle st = None)
  ∧ (∃ e, items_needing_attention age_days s = Raise e
          ∧ export_data age_days utcnow s = Raise e)
  ∧ ((∀ r' pd', r' ∈ items s → purchase_date r' = Some pd' →
                age_days pd' ≠ OffsetAware) →
     items_needing_attention age_days s = Raise ValueError
     ∧ export_data age_days utcnow s = Raise ValueError).
Proof.
  intros Hfind Hc Hp Hl Hfalsy Hbad.
  assert (Hexp : ∀ e, items_needing_attention age_days s = Raise e →
                      export_data age_days utcnow s = Raise e).
  { intros e He. unfold export_data. by rewrite He. }
  destruct (items_needing_attention_Raise_intro age_days s item pd)
    as [e He]; [by apply find_item_Some in Hfind as [? _] | done | done
               | by rewrite Hl | by rewrite Hbad |].
  split; [|split].
  - pose proof (item_status_cases age_days s _ item Hfind) as Hcases.
    cbn zeta in Hcases.
    assert (Hg : good_stuff_dates item = None).
    { destruct (good_stuff_dates item) as [[p' l']|] eqn:Hg; [|done].
      apply good_stuff_dates_Some in Hg as (_ & Hp' & Hne & Hl' & Hl0).
      rewrite Hp in Hp'. rewrite Hl in Hl'.
      injection Hp' as <-. injection Hl' as <-. by destruct Hfalsy. }
    rewrite Hg, Hc in Hcases. cbn in Hcases. by eexists.
  - exists e. split; [done | by apply Hexp].
  - intros Hnaive.
    assert (e = ValueError) as ->.
    { apply items_needing_attention_Raise_elim in He
        as (r' & pd' & Hr' & _ & Hpd' & _ & Hk%age_error_kinds).
      destruct Hk as [[_ ->] | [Haware _]]; [done|].
      by apply (Hnaive r' pd') in Haware. }
    split; [done | by apply Hexp].
Qed.

Lemma falsy_lifecycle_column_splits_readers_witness :
  (∃ st, item_status (fun _ => Malformed)
           (register_item "lamp" "Desk lamp" "good_stuff" (Some "")
              (Some 10%Q) None None None None empty_store).2 "lamp"
         = Ok (Some st)
         ∧ lifecycle st = None)
  ∧ items_needing_attention (fun _ => Malformed)
      (register_item "lamp" "Desk lamp" "good_stuff" (Some "")
         (Some 10%Q) None None None None empty_store).2
    = Raise ValueError
  ∧ export_data (fun _ => Malformed) "2024-06-01T00:00:00"
      (register_item "lamp" "Desk lamp" "good_stuff" (Some "")
         (Some 10%Q) None None None None empty_store).2
    = Raise ValueError.
Proof.
  destruct (falsy_lifecycle_column_splits_readers (fun _ => Malformed)
              "2024-06-01T00:00:00"
              (register_item "lamp" "Desk lamp" "good_stuff" (Some "")
                 (Some 10%Q) None None None None empty_store).2
              (item_row_of "lamp" "Desk lamp" "good_stuff" (Some "")
                 (Some 10%Q) None None None None) "" 10%Q)
    as (Hst & _ & Hval).
  - vm_compute. reflexivity.
  - reflexivity.
  - reflexivity.
  - reflexivity.
  - by left.
  - reflexivity.
  - split; [exact Hst|]. apply Hval. intros r' pd' _ _. discriminate.
Defined.

Lemma sql_le_true (a b : option Z) :
  sql_le a b = true ↔ ∃ q t, a = Some q ∧ b = Some t ∧ (q ≤ t)%Z.
Proof.
  unfold sql_le. destruct a as [q|], b as [t|]; split.
  all: try (intros (? & ? & ? & ? & ?); done); try done.
  - intros H%Z.leb_le. by exists q, t.
  - intros (? & ? & [= <-] & [= <-] & H). by apply Z.leb_le.
Qed.

(** X23. The refill list and the status of an item agree only when both
    columns are set.  A refillable item is in [refill_needed] exactly when
    its quantity and its threshold are both set and [item_status] reports
    [needs_refill]; with either column unset the item is never listed,
    whatever its status says. *)
Theorem refill_needed_iff_columns_set_and_needs_refill
    (age_days : string → age_result) (s : Store) (att : attention)
    (r : item_row) :
  keys_unique s →
  items_needing_attention age_days s = Ok att →
  r ∈ items s → category r = "refillable" →
  item_id r ∈ rn_item_id <$> refill_needed att ↔
  is_Some (current_quantity r) ∧ is_Some (refill_threshold r)
  ∧ ∃ st rs, item_status age_days s (item_id r) = Ok (Some st)
             ∧ refill_status st = Some rs ∧ needs_refill rs = true.
Proof.
  intros Hk Hatt Hr Hc.
  assert (Hlist : refill_needed att = select_refillables s).
  { unfold items_needing_attention in Hatt.
    destruct (aging_loop age_days (select_aging s) []); [|done].
    by injection Hatt as <-. }
  rewrite Hlist.
  pose proof (find_item_unique s r Hk Hr) as Hfind.
  destruct (item_status_refillable age_days s (item_id r) r Hfind Hc)
    as (st & rs & Hst & Hrs & Hof).
  rewrite refill_status_of_Ok in Hof. injection Hof as <-.
  unfold select_refillables. rewrite <- list_fmap_compose. split.
  - intros (r' & Hid & Hr')%list_elem_of_fmap. cbn in Hid.
    apply list_elem_of_filter in Hr' as [[_ Hle] Hr'].
    assert (r' = r) as ->
      by (by apply (NoDup_fmap_eq item_id (items s))).
    apply sql_le_true in Hle as (q & t & Hq & Ht & Hle).
    rewrite Hq, Ht. split; [done|]. split; [done|].
    exists st. eexists. split; [exact Hst|]. split; [exact Hrs|].
    cbn [needs_refill]. rewrite Hq, Ht, !or_zero_Z_default. cbn.
    by apply Z.leb_le.
  - intros ([q Hq] & [t Ht] & st' & rs' & Hst' & Hrs' & Hneeds).
    rewrite Hst in Hst'. injection Hst' as <-.
    rewrite Hrs in Hrs'. injection Hrs' as <-.
    cbn [needs_refill] in Hneeds.
    rewrite Hq, Ht, !or_zero_Z_default in Hneeds. cbn in Hneeds.
    apply Z.leb_le in Hneeds.
    apply list_elem_of_fmap. exists r. split; [done|].
    apply list_elem_of_filter. split; [|done]. split; [done|].
    apply sql_le_true. by exists q, t.
Qed.

Lemma refill_needed_iff_columns_set_and_needs_refill_witness :
  ∃ att, items_needing_attention demo_clock demo_store = Ok att
         ∧ "soap" ∈ rn_item_id <$> refill_needed att.
Proof.
  eexists. split; [vm_compute; reflexivity|].
  apply (refill_needed_iff_columns_set_and_needs_refill demo_clock demo_store
           _ {| item_id := "soap"; label := "Hand soap";
                category := "refillable"; purchase_date := None;
                expected_lifespan_years := None;
                current_quantity := Some 0%Z; refill_threshold := Some 2%Z;
                usage_rate_per_day := Some 1%Q; metadata := "{}" |}).
  - exact demo_store_keys_unique.
  - vm_compute. reflexivity.
  - vm_compute. apply list_elem_of_In. simpl. auto.
  - reflexivity.
  - split; [by eexists|]. split; [by eexists|].
    eexists _, _. split; [vm_compute; reflexivity|].
    split; reflexivity.
Defined.

(** ** What a status holds *)

(** X24. A refillable item that is out of stock has no [days_remaining]:
    when the quantity is absent or zero the entry is absent, whatever the
    usage rate, so the status does not tell an empty stock from an unknown
    usage rate. *)
Theorem days_remaining_absent_when_out_of_stock
    (age_days : string → age_result) (s : Store) (id : string)
    (item : item_row) :
  find_item s id = Some item → category item = "refillable" →
  default 0%Z (current_quantity item) = 0%Z →
  ∃ st rs, item_status age_days s id = Ok (Some st)
           ∧ refill_status st = Some rs
           ∧ rs_current_quantity rs = 0%Z
           ∧ days_remaining rs = None.
Proof.
  intros Hfind Hcat Hzero.
  destruct (item_status_refillable age_days s id item Hfind Hcat)
    as (st & rs & Hst & Hrs & Hof).
  exists st, rs. split; [done|]. split; [done|].
  rewrite refill_status_of_Ok in Hof. injection Hof as <-.
  cbn [rs_current_quantity days_remaining].
  rewrite or_zero_Z_default, Hzero. split; [done|].
  destruct (Qgtb _ 0); [|done]. cbn zeta.
  rewrite (nearest_double_zero
             (float_of_int 0 / or_zero_Q (usage_rate_per_day item)))
    by (change (float_of_int 0) with 0%Q; unfold Qdiv; ring).
  done.
Qed.

Lemma days_remaining_absent_when_out_of_stock_witness :
  ∃ st rs, item_status demo_clock demo_store "soap" = Ok (Some st)
           ∧ refill_status st = Some rs
           ∧ rs_current_quantity rs = 0%Z
           ∧ days_remaining rs = None.
Proof.
  apply (days_remaining_absent_when_out_of_stock demo_clock demo_store "soap"
           {| item_id := "soap"; label := "Hand soap";
              category := "refillable"; purchase_date := None;
              expected_lifespan_years := None;
              current_quantity := Some 0%Z; refill_threshold := Some 2%Z;
              usage_rate_per_day := Some 1%Q; metadata := "{}" |}).
  - vm_compute. reflexivity.
  - reflexivity.
  - reflexivity.
Defined.

(** X25. A status carries the identity asked for and the label, category
    and metadata of the row found.  Its optional entries follow the
    category: a [lifecycle] only for a [good_stuff] item, a [refill_status]
    exactly for a [refillable] item, and never both. *)
Theorem status_entries_follow_category (age_days : string → age_result)
    (s : Store) (id : string) (st : status) :
  item_status age_days s id = Ok (Some st) →
  (∃ item, find_item s id = Some item
           ∧ st_item_id st = id ∧ st_label st = label item
           ∧ st_category st = category item
           ∧ st_metadata st = metadata item)
  ∧ (is_Some (lifecycle st) → st_category st = "good_stuff")
  ∧ (is_Some (refill_status st) ↔ st_category st = "refillable")
  ∧ ¬ (is_Some (lifecycle st) ∧ is_Some (refill_status st)).
Proof.
  intros H. destruct (find_item s id) as [item|] eqn:Hfind;
    [|unfold item_status in H; by rewrite Hfind in H].
  pose proof (item_status_cases age_days s id item Hfind) as Hc.
  cbn zeta in Hc.
  destruct (good_stuff_dates item) as [[p l]|] eqn:Hg.
  - apply good_stuff_dates_Some in Hg as (Hcat & _).
    destruct (age_days p); [|congruence..].
    destruct Hc as (lc & _ & Hc). rewrite Hc in H. injection H as <-.
    cbn. split; [by exists item|]. split; [done|]. split.
    + split; [by intros [? ?]|]. rewrite Hcat. discriminate.
    + by intros [_ [? ?]].
  - destruct (String.eqb_spec (category item) "refillable") as [Hcat | Hcat].
    + destruct Hc as (rs & _ & Hc). rewrite Hc in H. injection H as <-.
      cbn. split; [by exists item|]. split; [by intros [? ?]|]. split.
      * done.
      * by intros [[? ?] _].
    + rewrite Hc in H. injection H as <-.
      cbn. split; [by exists item|]. split; [by intros [? ?]|]. split.
      * split; [by intros [? ?]|done].
      * by intros [[? ?] _].
Qed.

Lemma status_entries_follow_category_witness :
  ∃ st, item_status demo_clock demo_store "towel" = Ok (Some st)
        ∧ ¬ (is_Some (lifecycle st) ∧ is_Some (refill_status st)).
Proof.
  eexists. split; [vm_compute; reflexivity|].
  apply (status_entries_follow_category demo_clock demo_store "towel").
  vm_compute. reflexivity.
Defined.

(** ** One place per item *)


